(** * Codec-SUPERB: the evaluation pipeline of [benchmarking.py]

    A shallow embedding of [src/benchmarking.py]: per-entry metric
    computation, batching, per-model accumulation, aggregation into a
    mean per metric, and the loop over the models of a dataset.

    Conventions.
    - A Python [dict] is a [gmap]; the dataset returned by [load_dataset]
      keeps the order of its splits, so it is an association list.
    - A Python [float] is a binary64 [PrimFloat.float].
    - An uncaught exception is the [Raise] outcome of a [result]; nothing in
      [benchmarking.py] has a [try], so every [Raise] reaches the top level.
    - The list [metrics_results], mutated in place by [process_entry], is
      threaded through the calls. *)

From Stdlib Require Import ZArith QArith Floats Ascii.
From stdpp Require Import base option list strings gmap fin_maps.

Local Open Scope Z_scope.

Module Benchmarking.

(** ** Exceptions and results *)

Inductive exn : Type :=
  | KeyError (key : string)        (* a failed [d[key]] *)
  | ZeroDivisionError              (* [int / 0] *)
  | ValueError                     (* [int(nan)] *)
  | LoadError (msg : string).      (* whatever [load_dataset] raises *)

Inductive result (A : Type) : Type :=
  | Ok (a : A)
  | Raise (e : exn).
Arguments Ok {A} a.
Arguments Raise {A} e.

Global Instance result_ret : MRet result := λ A a, Ok a.
Global Instance result_bind : MBind result := λ A B f m,
  match m with
  | Ok a => f a
  | Raise e => Raise e
  end.

Definition raised {A} (r : result A) : Prop :=
  match r with
  | Ok _ => False
  | Raise _ => True
  end.

(** ** Data model *)

(** [entry['audio']]: the samples and their rate. *)
Record Audio : Type := mkAudio {
  array : list float;
  sampling_rate : Z
}.

(** One record of a split: [entry['id']] and [entry['audio']]. *)
Record Entry : Type := mkEntry {
  id : string;
  audio : Audio
}.

(** A metrics record: metric name to value. *)
Abbreviation Metrics := (gmap string float).

(** The object returned by [load_dataset]: named splits, in order. *)
Abbreviation DatasetDict := (list (string * list Entry)).

Definition keys (c : DatasetDict) : list string := map fst c.

(** [c[key]] *)
Fixpoint getitem (c : DatasetDict) (key : string) : result (list Entry) :=
  match c with
  | [] => Raise (KeyError key)
  | (k, split) :: rest => if decide (k = key) then Ok split else getitem rest key
  end.

(** ** Collaborators *)

(** [audiotools.AudioSignal] built from an array and a sampling rate. Its
    [duration] is the number of samples divided by the sample rate (a true
    division of two integers, which raises on a zero rate); the quotient is
    kept exact here. *)
Record AudioSignal : Type := mkAudioSignal {
  audio_data : list float;
  sample_rate : Z
}.

(** [AudioSignal(audio_array, sample_rate)]: the constructor derives a
    default window length from the base-2 logarithm of the sample rate,
    which is not a number for a negative rate, and raises when it converts
    it to an integer. *)
Definition new_AudioSignal (audio_array : list float) (sample_rate : Z)
    : result AudioSignal :=
  if decide (sample_rate < 0) then Raise ValueError
  else Ok (mkAudioSignal audio_array sample_rate).

Definition duration (s : AudioSignal) : result Q :=
  if decide (sample_rate s = 0) then Raise ZeroDivisionError
  else Ok (inject_Z (Z.of_nat (length (audio_data s))) / inject_Z (sample_rate s))%Q.

(** [d > max_duration] *)
Definition exceeds (d : Q) (max_duration : Z) : bool :=
  negb (Qle_bool d (inject_Z max_duration)).

(** Modelled from the spec: [codec.general.pad_arrays_to_match] is not part
    of the sources at hand. The spec has it pad the shorter of the two
    arrays to match the longer, zero-filled, so that both results have the
    length of the longer one; the padding goes after the samples. *)
Definition pad_arrays_to_match (array1 array2 : list float) : list float * list float :=
  let max_length := Nat.max (length array1) (length array2) in
  (array1 ++ replicate (max_length - length array1) 0%float,
   array2 ++ replicate (max_length - length array2) 0%float).

(** [np.nan] *)
Definition np_nan : float := PrimFloat.nan.

(** NumPy's sum of doubles. Fewer than eight values are added one after
    the other, from zero. Up to 128 values are added by blocks: eight
    accumulators start from the first eight values and take the following
    groups of eight, the accumulators are added two by two, and the values
    left over, fewer than eight, are added one after the other. A longer
    array is cut in two, at a multiple of eight near the middle, and the
    sums of the two parts are added. *)
Fixpoint accumulate (r : list float) (a : list float) : list float * list float :=
  match a with
  | a0 :: a1 :: a2 :: a3 :: a4 :: a5 :: a6 :: a7 :: rest =>
      let group := [a0; a1; a2; a3; a4; a5; a6; a7] in
      accumulate (zip_with PrimFloat.add r group) rest
  | _ => (r, a)
  end.

Definition block_sum (a : list float) : float :=
  let '(r, rest) := accumulate (take 8 a) (drop 8 a) in
  match r with
  | [r0; r1; r2; r3; r4; r5; r6; r7] =>
      fold_left PrimFloat.add rest
                (((r0 + r1) + (r2 + r3)) + ((r4 + r5) + (r6 + r7)))%float
  | _ => fold_left PrimFloat.add a 0%float
  end.

(** [depth] bounds the number of times the array is cut in two; the length
    of the array is more than enough. *)
Fixpoint pairwise_sum (depth : nat) (a : list float) : float :=
  let n := length a in
  if decide (n < 8)%nat then fold_left PrimFloat.add a 0%float
  else if decide (n ≤ 128)%nat then block_sum a
  else
    match depth with
    | O => block_sum a
    | S depth =>
        let n2 := (n / 2 - (n / 2) `mod` 8)%nat in
        (pairwise_sum depth (take n2 a) + pairwise_sum depth (drop n2 a))%float
    end.

(** [np.sum] of a list of doubles: the sum is added to the initial value
    of the reduction, zero. *)
Definition np_sum (a : list float) : float :=
  (0 + pairwise_sum (length a) a)%float.

(** [np.nanmean] of a list of floats, as NumPy computes it: the NaNs are
    replaced by zero, the values are summed, and the total is divided by the
    number of values that are not NaN (so a list of NaNs only gives
    [0 / 0], a NaN). *)
Definition np_nanmean (v : list float) : float :=
  let arr := map (λ x, if PrimFloat.is_nan x then 0%float else x) v in
  let cnt := length (filter (λ x, PrimFloat.is_nan x = false) v) in
  let tot := np_sum arr in
  (tot / PrimFloat.of_uint63 (Uint63.of_Z (Z.of_nat cnt)))%float.

(** ** batched_dataset *)

(** The generator's loop, with the current [batch] as an argument; the
    batches are listed in the order they are yielded. *)
Fixpoint batched_loop {A} (dataset : list A) (batch : list A) (batch_size : Z)
    : list (list A) :=
  match dataset with
  | [] => match batch with
          | [] => []
          | _ :: _ => [batch]
          end
  | item :: rest =>
      let batch := batch ++ [item] in
      if decide (Z.of_nat (length batch) = batch_size)
      then batch :: batched_loop rest [] batch_size
      else batched_loop rest batch batch_size
  end.

Definition batched_dataset {A} (dataset : list A) (batch_size : Z) : list (list A) :=
  batched_loop dataset [] batch_size.

(** What the loop of [evaluate_dataset] iterates over: a [dict] in streaming
    mode, a [list] of them in batch mode. *)
Inductive item : Type :=
  | Single (e : Entry)
  | Batch (es : list Entry).

Section Pipeline.

(** [metrics.get_metrics], a function of the two signals. *)
Variable get_metrics : AudioSignal → AudioSignal → Metrics.

(** [datasets.load_dataset name streaming]. *)
Variable load_dataset : string → bool → result DatasetDict.

(** ** compute_metrics *)

(** [None] is Python's [None]: the entry is skipped. *)
Definition compute_metrics (entry : Entry) (id_dict : gmap string (list float))
    (max_duration : Z) : result (option Metrics) :=
  match id_dict !! id entry with
  | None => Raise (KeyError (id entry))
  | Some resynth =>
      let '(original_arrays, resynth_array) :=
        pad_arrays_to_match (array (audio entry)) resynth in
      let sampling_rate := sampling_rate (audio entry) in
      original_signal ← new_AudioSignal original_arrays sampling_rate;
      d ← duration original_signal;
      if exceeds d max_duration then Ok None
      else
        model_signal ← new_AudioSignal resynth_array sampling_rate;
        Ok (Some (get_metrics original_signal model_signal))
  end.

(** The record of an entry that is not skipped. *)
Definition metrics_of (entry : Entry) (resynth : list float) : Metrics :=
  let padded := pad_arrays_to_match (array (audio entry)) resynth in
  get_metrics (mkAudioSignal padded.1 (sampling_rate (audio entry)))
              (mkAudioSignal padded.2 (sampling_rate (audio entry))).

(** ** process_entry *)

(** [if metrics is not None: metrics_results.append(metrics)] *)
Definition append_metrics (metrics_results : list Metrics) (metrics : option Metrics)
    : list Metrics :=
  match metrics with
  | Some m => metrics_results ++ [m]
  | None => metrics_results
  end.

(** The [for item in entry] loop of the batch branch. *)
Fixpoint process_items (items : list Entry) (id_dict : gmap string (list float))
    (metrics_results : list Metrics) (max_duration : Z) : result (list Metrics) :=
  match items with
  | [] => Ok metrics_results
  | item :: rest =>
      metrics ← compute_metrics item id_dict max_duration;
      process_items rest id_dict (append_metrics metrics_results metrics) max_duration
  end.

Definition process_entry (entry : item) (id_dict : gmap string (list float))
    (metrics_results : list Metrics) (max_duration : Z) : result (list Metrics) :=
  match entry with
  | Single e =>
      metrics ← compute_metrics e id_dict max_duration;
      Ok (append_metrics metrics_results metrics)
  | Batch es => process_items es id_dict metrics_results max_duration
  end.

(** ** evaluate_dataset *)

(** [{i['id']: i['audio']['array'] for i in c[model]}]: a later entry with
    the same id replaces an earlier one. *)
Definition build_id_dict (split : list Entry) : gmap string (list float) :=
  fold_left (λ d i, <[id i := array (audio i)]> d) split ∅.

(** [for entry in dataset_iterable: process_entry(...)] *)
Fixpoint process_dataset (dataset_iterable : list item)
    (id_dict : gmap string (list float)) (metrics_results : list Metrics)
    (max_duration : Z) : result (list Metrics) :=
  match dataset_iterable with
  | [] => Ok metrics_results
  | entry :: rest =>
      metrics_results ← process_entry entry id_dict metrics_results max_duration;
      process_dataset rest id_dict metrics_results max_duration
  end.

(** [for k, v in metrics.items(): aggregated_metrics[k].append(v)] on a
    [defaultdict(list)]. *)
Definition collect (aggregated_metrics : gmap string (list float)) (metrics : Metrics)
    : gmap string (list float) :=
  map_fold (λ k v agg, <[k := default [] (agg !! k) ++ [v]]> agg)
           aggregated_metrics metrics.

Definition aggregate (metrics_results : list Metrics) : gmap string (list float) :=
  fold_left collect metrics_results ∅.

(** [{k: np.nanmean(v) if v else np.nan for k, v in aggregated_metrics.items()}] *)
Definition reduce (aggregated_metrics : gmap string (list float)) : Metrics :=
  (λ v, match v with
        | [] => np_nan
        | _ :: _ => np_nanmean v
        end) <$> aggregated_metrics.

(** [mode == 'streaming'] *)
Definition is_streaming (mode : string) : bool := bool_decide (mode = "streaming"%string).

(** The body of the loop over the models, from the construction of
    [id_dict] to [model_result]. *)
Definition evaluate_model (c : DatasetDict) (mode : string) (batch_size : Z)
    (max_duration : Z) (model : string) : result Metrics :=
  split ← getitem c model;
  let id_dict := build_id_dict split in
  original ← getitem c "original"%string;
  let dataset_iterable :=
    if is_streaming mode then Single <$> original
    else Batch <$> batched_dataset original batch_size in
  metrics_results ← process_dataset dataset_iterable id_dict [] max_duration;
  Ok (reduce (aggregate metrics_results)).

(** [specific_models is not None and model not in specific_models] *)
Definition skipped (specific_models : option (list string)) (model : string) : bool :=
  match specific_models with
  | Some names => negb (bool_decide (model ∈ names))
  | None => false
  end.

(** What a run leaves behind: the models whose loop body was entered (each
    is announced by the [print] that precedes the construction of its
    [id_dict]), and either the mapping dumped to the output file or the
    exception that ended the process. *)
Record Run : Type := mkRun {
  evaluated : list string;
  outcome : result (gmap string Metrics)
}.

Fixpoint evaluate_models (c : DatasetDict) (mode : string) (batch_size : Z)
    (specific_models : option (list string)) (max_duration : Z)
    (models : list string) (result_data : gmap string Metrics) : Run :=
  match models with
  | [] => mkRun [] (Ok result_data)
  | model :: rest =>
      if skipped specific_models model
      then evaluate_models c mode batch_size specific_models max_duration rest result_data
      else
        match evaluate_model c mode batch_size max_duration model with
        | Raise e => mkRun [model] (Raise e)
        | Ok model_result =>
            let r := evaluate_models c mode batch_size specific_models max_duration
                       rest (<[model := model_result]> result_data) in
            mkRun (model :: evaluated r) (outcome r)
        end
  end.

Definition evaluate_dataset (dataset_name : string) (mode : string) (batch_size : Z)
    (specific_models : option (list string)) (max_duration : Z) : Run :=
  match load_dataset dataset_name (is_streaming mode) with
  | Raise e => mkRun [] (Raise e)
  | Ok c =>
      let models := filter (λ key, key ≠ "original"%string) (keys c) in
      evaluate_models c mode batch_size specific_models max_duration models ∅
  end.

(** The command line, after [argparse]: [models] is [None] when [--models]
    is absent. *)
Record Args : Type := mkArgs {
  dataset : string;
  mode : string;
  batch_size : Z;
  models : option (list string);
  max_duration : Z
}.

Definition main (args : Args) : Run :=
  evaluate_dataset (dataset args) (mode args) (batch_size args) (models args)
                   (max_duration args).

(** The exit status of the interpreter: 1 after an uncaught exception. *)
Definition exit_code (r : Run) : Z :=
  match outcome r with
  | Ok _ => 0
  | Raise _ => 1
  end.

End Pipeline.

(** ** Notions used in the statements *)

(** The entries an item of the iteration stands for. *)
Definition entries_of (it : item) : list Entry :=
  match it with
  | Single e => [e]
  | Batch es => es
  end.

(** The number of samples of the signals that are compared. *)
Definition padded_length (entry : Entry) (resynth : list float) : nat :=
  Nat.max (length (array (audio entry))) (length resynth).

(** The duration that [compute_metrics] tests: that of the original signal
    after padding. *)
Definition padded_duration (entry : Entry) (resynth : list float) : Q :=
  (inject_Z (Z.of_nat (padded_length entry resynth))
   / inject_Z (sampling_rate (audio entry)))%Q.

(** The duration of the entry's own audio. *)
Definition own_duration (entry : Entry) : result Q :=
  duration (mkAudioSignal (array (audio entry)) (sampling_rate (audio entry))).

(** The values that the records hold for a metric, in the order of the
    records. *)
Definition values_of (k : string) (metrics_results : list Metrics) : list float :=
  omap (λ metrics : Metrics, metrics !! k) metrics_results.

(** The rational number that a finite float stands for. *)
Definition exact_value (x : float) : option Q :=
  match Prim2SF x with
  | S754_zero _ => Some 0%Q
  | S754_finite s m e =>
      Some ((if s then -(1) else 1) * inject_Z (Z.pos m) * 2 ^ e)%Q
  | _ => None
  end.

Definition exact_sum (v : list float) : Q :=
  foldr (λ x acc, default 0%Q (exact_value x) + acc)%Q 0%Q v.

(** The arithmetic mean of the values that are not NaN, without rounding;
    it is defined when there is such a value and all of them are finite. *)
Definition exact_nanmean (v : list float) : option Q :=
  let kept := filter (λ x, PrimFloat.is_nan x = false) v in
  if decide (kept ≠ [] ∧ Forall (λ x, is_Some (exact_value x)) kept)
  then Some (Qred (exact_sum kept / inject_Z (Z.of_nat (length kept))))
  else None.

(** ** Data for the examples *)

(** A metrics function for the examples: the number of samples compared. *)
Definition count_samples (original_signal model_signal : AudioSignal) : Metrics :=
  {[ "samples"%string :=
       PrimFloat.of_uint63 (Uint63.of_Z (Z.of_nat (length (audio_data original_signal)))) ]}.

Definition clip (i : string) (samples : list float) : Entry :=
  mkEntry i (mkAudio samples 16000).

(** The scenario of the spec: one original entry of four samples, and a
    model ["m"] that resynthesized three of them. *)
Definition scenario : DatasetDict :=
  [ ("original"%string, [clip "1" [1; 2; 3; 4]%float]);
    ("m"%string, [clip "1" [1; 2; 3]%float]) ].

(** Five original entries and a model that has them all. *)
Definition five_clips : list Entry :=
  [ clip "1" [1]%float; clip "2" [1; 2]%float; clip "3" [1; 2; 3]%float;
    clip "4" [4]%float; clip "5" [5; 5]%float ].

Definition five : DatasetDict :=
  [ ("original"%string, five_clips); ("m"%string, five_clips) ].

(** A loader that returns the same dataset in both modes. *)
Definition loaded (c : DatasetDict) : string → bool → result DatasetDict :=
  λ _ _, Ok c.

(** An original entry that the model ["m"] lacks. *)
Definition lacking : DatasetDict :=
  [ ("original"%string, [clip "1" [1; 2]%float; clip "2" [3; 4]%float]);
    ("m"%string, [clip "1" [1; 2]%float]) ].

(** Three seconds of audio at one sample per second, with two seconds
    allowed. *)
Definition slow : Entry := mkEntry "slow" (mkAudio [1; 2; 3]%float 1).

Definition slow_missing : DatasetDict :=
  [ ("original"%string, [slow]); ("m"%string, [clip "1" [1]%float]) ].

(** A model ["m"] with an empty split, next to a model ["n"] that has
    the original entry. *)
Definition hollow : DatasetDict :=
  [ ("original"%string, [clip "1" [1; 2]%float]);
    ("m"%string, []);
    ("n"%string, [clip "1" [1; 2]%float]) ].

(** Only empty splits. *)
Definition void : DatasetDict := [ ("original"%string, []); ("m"%string, []) ].

(** Records with the single metric ["snr"]. *)
Definition snr (x : float) : Metrics := {[ "snr"%string := x ]}.

(** 2^53, at which the next float is two away. *)
Definition big : float := 9007199254740992%float.

(** 2^1023, the largest power of two: twice this value is infinite. *)
Definition huge : float := 0x1p+1023%float.

(** ** The output file and the records of a split *)

(** [s.replace('/', '_')] *)
Fixpoint replace_slash (s : string) : string :=
  match s with
  | EmptyString => EmptyString
  | String a rest =>
      String (if Ascii.eqb a "/"%char then "_"%char else a) (replace_slash rest)
  end.

(** [f"{dataset_name.replace('/', '_')}_evaluation_results.json"], the
    file that [evaluate_dataset] opens for writing once the loop is over. *)
Definition output_file_name (dataset_name : string) : string :=
  String.append (replace_slash dataset_name) "_evaluation_results.json".

(** What an entry adds to [metrics_results] when [compute_metrics] returns. *)
Definition kept_record (get_metrics : AudioSignal → AudioSignal → Metrics)
    (id_dict : gmap string (list float)) (max_duration : Z) (entry : Entry)
    : option Metrics :=
  match compute_metrics get_metrics entry id_dict max_duration with
  | Ok metrics => metrics
  | Raise _ => None
  end.

(** The models of a list that pass the filter. *)
Definition selected (specific_models : option (list string)) (models : list string)
    : list string :=
  filter (λ m, skipped specific_models m = false) models.

(** A dataset that has no ["original"] split. *)
Definition orphan : DatasetDict := [ ("m"%string, [clip "1" [1; 2]%float]) ].

(** The scenario of the spec next to a second model, with another
    resynthesis for that model in [scenario_bis]. *)
Definition scenario_two : DatasetDict :=
  scenario ++ [ ("n"%string, [clip "1" [1; 2; 3; 4]%float]) ].

Definition scenario_bis : DatasetDict :=
  scenario ++ [ ("n"%string, [clip "7" [0]%float]) ].

(** * Properties *)

(** ** Padding *)

Lemma pad_arrays_to_match_length array1 array2 :
  length (pad_arrays_to_match array1 array2).1 = Nat.max (length array1) (length array2) ∧
  length (pad_arrays_to_match array1 array2).2 = Nat.max (length array1) (length array2).
Proof.
  unfold pad_arrays_to_match; simpl.
  rewrite !length_app, !length_replicate. lia.
Qed.

(** ** Batching *)

Lemma batched_loop_concat {A} (dataset batch : list A) batch_size :
  concat (batched_loop dataset batch batch_size) = batch ++ dataset.
Proof.
  revert batch. induction dataset as [|x dataset IH]; intros batch; simpl.
  - destruct batch; simpl; by rewrite ?app_nil_r.
  - case_decide; simpl; rewrite IH; by rewrite <- ?app_assoc.
Qed.

Lemma batched_loop_sizes {A} (dataset batch : list A) batch_size :
  Z.of_nat (length batch) < batch_size →
  Forall (λ b, b ≠ [] ∧ Z.of_nat (length b) ≤ batch_size)
         (batched_loop dataset batch batch_size).
Proof.
  revert batch. induction dataset as [|x dataset IH]; intros batch Hlt; simpl.
  - destruct batch; constructor; [|constructor]. split; [done|lia].
  - assert (Hlen : length (batch ++ [x]) = S (length batch))
      by (rewrite length_app; simpl; lia).
    case_decide as Hfull.
    + constructor.
      * split; [by destruct batch|lia].
      * apply IH. simpl. lia.
    + apply IH. lia.
Qed.

(** Every batch but the last one is full. *)
Lemma batched_loop_full {A} (dataset batch : list A) batch_size :
  Z.of_nat (length batch) < batch_size →
  ∀ i b, (S i < length (batched_loop dataset batch batch_size))%nat →
         batched_loop dataset batch batch_size !! i = Some b →
         Z.of_nat (length b) = batch_size.
Proof.
  revert batch. induction dataset as [|x dataset IH]; intros batch Hlt i b; simpl.
  - destruct batch; simpl; lia.
  - assert (Hlen : length (batch ++ [x]) = S (length batch))
      by (rewrite length_app; simpl; lia).
    case_decide as Hfull.
    + destruct i as [|i]; simpl.
      * intros _ [= <-]. done.
      * intros Hi. apply IH; [simpl|]; lia.
    + apply IH. lia.
Qed.

Section Facts.

Variable get_metrics : AudioSignal → AudioSignal → Metrics.
Variable load_dataset : string → bool → result DatasetDict.

Local Abbreviation compute_metrics := (compute_metrics get_metrics).
Local Abbreviation process_items := (process_items get_metrics).
Local Abbreviation process_entry := (process_entry get_metrics).
Local Abbreviation process_dataset := (process_dataset get_metrics).
Local Abbreviation evaluate_model := (evaluate_model get_metrics).
Local Abbreviation evaluate_models := (evaluate_models get_metrics).
Local Abbreviation evaluate_dataset := (evaluate_dataset get_metrics load_dataset).
Local Abbreviation metrics_of := (metrics_of get_metrics).

(** ** Entries, one at a time or in batches *)

Lemma process_entry_items it id_dict metrics_results max_duration :
  process_entry it id_dict metrics_results max_duration
  = process_items (entries_of it) id_dict metrics_results max_duration.
Proof.
  destruct it as [e|es]; simpl; [|done].
  by destruct (compute_metrics e id_dict max_duration).
Qed.

Lemma process_items_app es1 es2 id_dict metrics_results max_duration :
  process_items (es1 ++ es2) id_dict metrics_results max_duration
  = process_items es1 id_dict metrics_results max_duration
      ≫= λ rs, process_items es2 id_dict rs max_duration.
Proof.
  revert metrics_results. induction es1 as [|e es1 IH]; intros rs; simpl; [done|].
  destruct (compute_metrics e id_dict max_duration); simpl; [apply IH|done].
Qed.

Lemma process_dataset_items its id_dict metrics_results max_duration :
  process_dataset its id_dict metrics_results max_duration
  = process_items (concat (entries_of <$> its)) id_dict metrics_results max_duration.
Proof.
  revert metrics_results. induction its as [|it its IH]; intros rs; simpl; [done|].
  rewrite process_items_app, process_entry_items.
  destruct (process_items (entries_of it) id_dict rs max_duration); simpl; [apply IH|done].
Qed.

Lemma entries_of_single original : concat (entries_of <$> (Single <$> original)) = original.
Proof. induction original as [|e es IH]; csimpl; [done|by f_equal]. Qed.

Lemma entries_of_batch (batches : list (list Entry)) :
  concat (entries_of <$> (Batch <$> batches)) = concat batches.
Proof. induction batches as [|b bs IH]; csimpl; [done|by f_equal]. Qed.

(** Whatever the mode and the batch size, a model is evaluated on the
    entries of the original split, one after the other. *)
Lemma evaluate_model_items c mode batch_size max_duration model :
  evaluate_model c mode batch_size max_duration model
  = getitem c model ≫= λ split,
    getitem c "original"%string ≫= λ original,
    process_items original (build_id_dict split) [] max_duration ≫= λ rs,
    Ok (reduce (aggregate rs)).
Proof.
  unfold evaluate_model.
  destruct (getitem c model) as [split|]; simpl; [|done].
  destruct (getitem c "original"%string) as [original|]; simpl; [|done].
  rewrite process_dataset_items.
  destruct (is_streaming mode).
  - by rewrite entries_of_single.
  - rewrite entries_of_batch. unfold batched_dataset.
    by rewrite batched_loop_concat.
Qed.

(** ** Lookups *)

Lemma getitem_Ok c key : key ∈ keys c → ∃ split, getitem c key = Ok split.
Proof.
  unfold keys. induction c as [|[k split] c IH]; simpl.
  - by intros ?%elem_of_nil.
  - intros [->|Hin]%elem_of_cons; case_decide; eauto; done.
Qed.

Lemma getitem_Raise c key e : getitem c key = Raise e → e = KeyError key ∧ key ∉ keys c.
Proof.
  unfold keys. induction c as [|[k split] c IH]; simpl.
  - intros [= <-]. split; [done|apply not_elem_of_nil].
  - case_decide as Hk; [done|]. intros [-> Hnot]%IH. split; [done|].
    by intros [->|?]%elem_of_cons.
Qed.

Lemma build_id_dict_fold split (d : gmap string (list float)) k :
  fold_left (λ d i, <[id i := array (audio i)]> d) split d !! k = None
  ↔ d !! k = None ∧ k ∉ id <$> split.
Proof.
  revert d. induction split as [|i split IH]; intros d; csimpl.
  - split; [intros ?; split; [done|apply not_elem_of_nil]|by intros [? _]].
  - rewrite IH, not_elem_of_cons.
    destruct (decide (id i = k)) as [->|Hne].
    + rewrite lookup_insert_eq. split; [by intros [? _]|by intros (_ & [] & _)].
    + rewrite lookup_insert_ne by done. split; [by intros [? ?]|by intros (? & _ & ?)].
Qed.

(** An id is missing from the mapping of a model exactly when no entry of
    the model's split carries it. *)
Lemma build_id_dict_None split k : build_id_dict split !! k = None ↔ k ∉ id <$> split.
Proof. unfold build_id_dict. rewrite build_id_dict_fold, lookup_empty. tauto. Qed.

(** ** One entry *)

Lemma compute_metrics_missing entry id_dict max_duration :
  id_dict !! id entry = None →
  compute_metrics entry id_dict max_duration = Raise (KeyError (id entry)).
Proof. unfold compute_metrics. by intros ->. Qed.

Lemma compute_metrics_present entry id_dict max_duration resynth :
  id_dict !! id entry = Some resynth →
  0 < sampling_rate (audio entry) →
  compute_metrics entry id_dict max_duration
  = Ok (if exceeds (padded_duration entry resynth) max_duration then None
        else Some (metrics_of entry resynth)).
Proof.
  intros Hid Hsr. unfold compute_metrics. rewrite Hid.
  unfold pad_arrays_to_match, new_AudioSignal, duration, padded_duration,
    padded_length, metrics_of.
  simpl. case_decide; [lia|]. simpl. case_decide; [lia|]. simpl.
  rewrite length_app, length_replicate.
  replace (length (array (audio entry))
           + (Nat.max (length (array (audio entry))) (length resynth)
              - length (array (audio entry))))%nat
    with (Nat.max (length (array (audio entry))) (length resynth)) by lia.
  by destruct (exceeds _ _).
Qed.

Lemma compute_metrics_zero_rate entry id_dict max_duration resynth :
  id_dict !! id entry = Some resynth →
  sampling_rate (audio entry) = 0 →
  compute_metrics entry id_dict max_duration = Raise ZeroDivisionError.
Proof.
  intros Hid Hsr. unfold compute_metrics. rewrite Hid.
  unfold pad_arrays_to_match, new_AudioSignal, duration. simpl.
  case_decide; [lia|]. simpl. by case_decide.
Qed.

Lemma compute_metrics_negative_rate entry id_dict max_duration resynth :
  id_dict !! id entry = Some resynth →
  sampling_rate (audio entry) < 0 →
  compute_metrics entry id_dict max_duration = Raise ValueError.
Proof.
  intros Hid Hsr. unfold compute_metrics. rewrite Hid.
  unfold pad_arrays_to_match, new_AudioSignal. simpl. by case_decide.
Qed.

(** The exceptions of [compute_metrics]: a missing id, then a sampling rate
    that is negative or zero. *)
Lemma compute_metrics_Raise entry id_dict max_duration e :
  compute_metrics entry id_dict max_duration = Raise e →
  (id_dict !! id entry = None ∧ e = KeyError (id entry))
  ∨ (sampling_rate (audio entry) < 0 ∧ e = ValueError)
  ∨ (sampling_rate (audio entry) = 0 ∧ e = ZeroDivisionError).
Proof.
  destruct (id_dict !! id entry) as [resynth|] eqn:Hid.
  - destruct (Z.lt_trichotomy (sampling_rate (audio entry)) 0) as [Hsr|[Hsr|Hsr]].
    + rewrite (compute_metrics_negative_rate _ _ _ _ Hid Hsr). intros [= <-]. auto.
    + rewrite (compute_metrics_zero_rate _ _ _ _ Hid Hsr). intros [= <-]. auto.
    + by rewrite (compute_metrics_present _ _ _ _ Hid Hsr).
  - rewrite (compute_metrics_missing _ _ _ Hid). intros [= <-]. by left.
Qed.

(** ** The entries of a split *)

Lemma process_items_raised es id_dict metrics_results max_duration entry :
  entry ∈ es →
  raised (compute_metrics entry id_dict max_duration) →
  raised (process_items es id_dict metrics_results max_duration).
Proof.
  revert metrics_results. induction es as [|e es IH]; intros rs.
  - by intros ?%elem_of_nil.
  - intros [->|Hin]%elem_of_cons Hraised; simpl.
    + by destruct (compute_metrics e id_dict max_duration).
    + destruct (compute_metrics e id_dict max_duration); simpl; [by apply IH|done].
Qed.

Lemma process_items_Raise es id_dict metrics_results max_duration e :
  process_items es id_dict metrics_results max_duration = Raise e →
  ∃ entry, entry ∈ es ∧ compute_metrics entry id_dict max_duration = Raise e.
Proof.
  revert metrics_results. induction es as [|x es IH]; intros rs; simpl; [done|].
  destruct (compute_metrics x id_dict max_duration) as [m|e'] eqn:Hx; simpl.
  - intros (entry & Hin & Hentry)%IH. exists entry. split; [by right|done].
  - intros [= <-]. exists x. split; [by left|done].
Qed.

(** With every id present and positive rates, the accumulated list grows
    by the records of the entries that are not skipped, in order. *)
Lemma process_items_Ok es id_dict metrics_results max_duration :
  Forall (λ entry, is_Some (id_dict !! id entry) ∧ 0 < sampling_rate (audio entry)) es →
  ∃ records,
    process_items es id_dict metrics_results max_duration = Ok (metrics_results ++ records)
    ∧ (length records ≤ length es)%nat.
Proof.
  intros Hes. revert metrics_results.
  induction Hes as [|e es [[resynth Hid] Hsr] _ IH]; intros rs; simpl.
  - exists []. by rewrite app_nil_r.
  - rewrite (compute_metrics_present _ _ _ _ Hid Hsr). simpl.
    destruct (exceeds _ _); simpl.
    + destruct (IH rs) as (records & -> & Hlen). exists records. split; [done|lia].
    + destruct (IH (rs ++ [metrics_of e resynth])) as (records & -> & Hlen).
      exists (metrics_of e resynth :: records). rewrite <- app_assoc.
      split; [done|simpl; lia].
Qed.

(** The first entry whose id is missing. *)
Lemma first_missing (es : list Entry) (id_dict : gmap string (list float)) entry :
  entry ∈ es → id_dict !! id entry = None →
  ∃ before first after,
    es = before ++ first :: after
    ∧ Forall (λ e, is_Some (id_dict !! id e)) before
    ∧ id_dict !! id first = None.
Proof.
  induction es as [|x es IH]; [by intros ?%elem_of_nil|].
  intros Hin Hmissing. destruct (id_dict !! id x) as [resynth|] eqn:Hx.
  - apply elem_of_cons in Hin as [->|Hin]; [congruence|].
    destruct (IH Hin Hmissing) as (before & first & after & -> & Hbefore & Hfirst).
    exists (x :: before), first, after. split_and!; [done| |done].
    constructor; [by eexists|done].
  - by exists [], x, es.
Qed.

(** The entries before it return, and it raises. *)
Lemma process_items_first_missing before first after id_dict metrics_results max_duration :
  Forall (λ e, is_Some (id_dict !! id e) ∧ 0 < sampling_rate (audio e)) before →
  id_dict !! id first = None →
  process_items (before ++ first :: after) id_dict metrics_results max_duration
  = Raise (KeyError (id first)).
Proof.
  intros Hbefore Hmissing. rewrite process_items_app.
  destruct (process_items_Ok before id_dict metrics_results max_duration Hbefore)
    as (records & -> & _).
  simpl. by rewrite (compute_metrics_missing _ _ _ Hmissing).
Qed.

(** ** The loop over the models *)

Section Models.

Variables (c : DatasetDict) (max_duration : Z).

(** The loop depends on the mode, the batch size and the filter only
    through what they decide for the models of the list. *)
Lemma evaluate_models_ext mode1 mode2 bs1 bs2 specific1 specific2 models result_data :
  (∀ m, m ∈ models → skipped specific1 m = skipped specific2 m) →
  (∀ m, m ∈ models →
        evaluate_model c mode1 bs1 max_duration m = evaluate_model c mode2 bs2 max_duration m) →
  evaluate_models c mode1 bs1 specific1 max_duration models result_data
  = evaluate_models c mode2 bs2 specific2 max_duration models result_data.
Proof.
  revert result_data. induction models as [|m models IH]; intros rd Hskip Hmodel; [done|].
  simpl. rewrite <- (Hskip m), <- (Hmodel m) by left.
  assert (Hrest : ∀ rd', evaluate_models c mode1 bs1 specific1 max_duration models rd'
                         = evaluate_models c mode2 bs2 specific2 max_duration models rd').
  { intros rd'. apply IH; intros; [apply Hskip|apply Hmodel]; by right. }
  destruct (skipped specific1 m); [apply Hrest|].
  destruct (evaluate_model c mode1 bs1 max_duration m); [|done].
  by rewrite Hrest.
Qed.

Variables (mode : string) (batch_size : Z) (specific_models : option (list string)).

Local Abbreviation loop := (evaluate_models c mode batch_size specific_models max_duration).
Local Abbreviation body := (evaluate_model c mode batch_size max_duration).

(** An exception in the body for one model ends the loop with an
    exception: no later model is evaluated and nothing is returned. *)
Lemma evaluate_models_raised models result_data m :
  m ∈ models → skipped specific_models m = false → raised (body m) →
  raised (outcome (loop models result_data)).
Proof.
  revert result_data. induction models as [|x models IH]; intros rd.
  - by intros ?%elem_of_nil.
  - intros Hin Hskip Hraised. simpl.
    destruct (skipped specific_models x) eqn:Hx.
    + apply IH; [|done..]. apply elem_of_cons in Hin as [->|?]; [congruence|done].
    + destruct (body x) as [r|e] eqn:Hbody; simpl; [|done].
      apply elem_of_cons in Hin as [->|?]; [by rewrite Hbody in Hraised|by apply IH].
Qed.

Lemma evaluate_models_Raise models result_data e :
  outcome (loop models result_data) = Raise e →
  ∃ m, m ∈ models ∧ skipped specific_models m = false ∧ body m = Raise e.
Proof.
  revert result_data. induction models as [|x models IH]; intros rd; simpl; [done|].
  destruct (skipped specific_models x) eqn:Hx.
  - intros (m & ? & ? & ?)%IH. exists m. split; [by right|done].
  - destruct (body x) as [r|e'] eqn:Hbody; simpl.
    + intros (m & ? & ? & ?)%IH. exists m. split; [by right|done].
    + intros [= <-]. exists x. split; [by left|done].
Qed.

(** The loop completes when the body does for each model of the filter. *)
Lemma evaluate_models_completes models result_data :
  (∀ m, m ∈ models → skipped specific_models m = false → ∃ r, body m = Ok r) →
  ∃ result_data', outcome (loop models result_data) = Ok result_data'.
Proof.
  revert result_data. induction models as [|x models IH]; intros rd Hbody; simpl; [eauto|].
  assert (Hrest : ∀ m, m ∈ models → skipped specific_models m = false → ∃ r, body m = Ok r).
  { intros m ?. apply Hbody. by right. }
  destruct (skipped specific_models x) eqn:Hx; [by apply IH|].
  destruct (Hbody x) as [r ->]; [by left|done|]. simpl. by apply IH.
Qed.

(** The body is entered for models of the list that pass the filter only. *)
Lemma evaluate_models_evaluated models result_data m :
  m ∈ evaluated (loop models result_data) →
  m ∈ models ∧ skipped specific_models m = false.
Proof.
  revert result_data. induction models as [|x models IH]; intros rd; simpl.
  - by intros ?%elem_of_nil.
  - destruct (skipped specific_models x) eqn:Hx.
    + intros [? ?]%IH. split; [by right|done].
    + destruct (body x) as [r|e]; simpl.
      * intros [->|[? ?]%IH]%elem_of_cons; (split; [|done]); [by left|by right].
      * intros ->%list_elem_of_singleton. split; [by left|done].
Qed.

(** The mapping that a completed loop returns. *)
Lemma evaluate_models_Ok models result_data result_data' :
  outcome (loop models result_data) = Ok result_data' →
  ∀ k, (k ∈ models → skipped specific_models k = false →
        ∃ r, body k = Ok r ∧ result_data' !! k = Some r)
     ∧ (k ∉ models ∨ skipped specific_models k = true →
        result_data' !! k = result_data !! k).
Proof.
  revert result_data. induction models as [|x models IH]; intros rd; simpl.
  - intros [= <-] k. split; [by intros ?%elem_of_nil|done].
  - destruct (skipped specific_models x) eqn:Hx.
    + intros Hloop k. destruct (IH _ Hloop k) as [Hin Hout]. split.
      * intros [->|?]%elem_of_cons ?; [congruence|by apply Hin].
      * intros [Hk|Hk]; apply Hout; [|by right].
        left. intros ?. apply Hk. by right.
    + destruct (body x) as [r|e] eqn:Hbody; simpl; [|done].
      intros Hloop k. destruct (IH _ Hloop k) as [Hin Hout]. split.
      * intros Hk Hskip. destruct (decide (k ∈ models)) as [?|Hnot]; [by apply Hin|].
        apply elem_of_cons in Hk as [->|?]; [|done].
        exists r. split; [done|]. rewrite Hout by (by left). apply lookup_insert_eq.
      * intros Hk. assert (x ≠ k).
        { intros ->. destruct Hk as [Hk|Hk]; [apply Hk; by left|congruence]. }
        rewrite <- (lookup_insert_ne rd x k r) by done. apply Hout.
        destruct Hk as [Hk|Hk]; [|by right]. left. intros ?. apply Hk. by right.
Qed.

End Models.

(** The models of a dataset: its splits but ["original"]. *)
Lemma elem_of_models (c : DatasetDict) m :
  m ∈ filter (λ key, key ≠ "original"%string) (keys c) ↔ m ≠ "original"%string ∧ m ∈ keys c.
Proof. by rewrite list_elem_of_filter. Qed.

(** ** The whole run *)

Lemma getitem_Ok_elem c key split : getitem c key = Ok split → key ∈ keys c.
Proof.
  unfold keys. induction c as [|[k s] c IH]; simpl; [done|].
  case_decide as Hk; [intros _; subst k; by left|]. intros ?%IH. by right.
Qed.

Lemma evaluate_models_all_skipped c mode batch_size specific_models max_duration
    models result_data :
  (∀ m, m ∈ models → skipped specific_models m = true) →
  evaluate_models c mode batch_size specific_models max_duration models result_data
  = mkRun [] (Ok result_data).
Proof.
  induction models as [|x models IH]; intros Hall; simpl; [done|].
  rewrite Hall by left. apply IH. intros m ?. apply Hall. by right.
Qed.

(** An original entry whose id the model lacks makes the body raise. *)
Lemma evaluate_model_raised c mode batch_size max_duration model split original entry :
  getitem c model = Ok split →
  getitem c "original"%string = Ok original →
  entry ∈ original →
  build_id_dict split !! id entry = None →
  raised (evaluate_model c mode batch_size max_duration model).
Proof.
  intros Hsplit Horiginal Hin Hmissing.
  rewrite evaluate_model_items, Hsplit, Horiginal. simpl.
  pose proof (process_items_raised original (build_id_dict split) [] max_duration entry Hin)
    as Hraised.
  rewrite (compute_metrics_missing _ _ _ Hmissing) in Hraised.
  destruct (process_items original _ _ _); simpl; [by apply Hraised|done].
Qed.

Lemma evaluate_dataset_raised dataset_name mode batch_size specific_models max_duration
    c model :
  load_dataset dataset_name (is_streaming mode) = Ok c →
  model ∈ keys c → model ≠ "original"%string →
  skipped specific_models model = false →
  raised (evaluate_model c mode batch_size max_duration model) →
  raised (outcome (evaluate_dataset dataset_name mode batch_size specific_models
                                    max_duration)).
Proof.
  intros Hload Hkey Hmodel Hskip Hraised.
  unfold evaluate_dataset, Benchmarking.evaluate_dataset. rewrite Hload.
  apply (evaluate_models_raised _ _ _ _ _ _ _ model); [|done..].
  by apply elem_of_models.
Qed.

(** With positive sampling rates in the original split, a run over a
    dataset that has this split can only end on a key-lookup error. *)
Lemma evaluate_dataset_KeyError dataset_name mode batch_size specific_models max_duration
    c original e :
  load_dataset dataset_name (is_streaming mode) = Ok c →
  getitem c "original"%string = Ok original →
  Forall (λ entry, 0 < sampling_rate (audio entry)) original →
  outcome (evaluate_dataset dataset_name mode batch_size specific_models max_duration)
  = Raise e →
  ∃ key, e = KeyError key.
Proof.
  intros Hload Horiginal Hrates.
  unfold evaluate_dataset, Benchmarking.evaluate_dataset. rewrite Hload.
  intros (m & Hm & _ & Hbody)%evaluate_models_Raise.
  rewrite evaluate_model_items, Horiginal in Hbody.
  destruct (getitem c m) as [split|e'] eqn:Hsplit; simpl in Hbody.
  - destruct (process_items original _ _ _) as [rs|e'] eqn:Hitems; simpl in Hbody; [done|].
    injection Hbody as ->.
    apply process_items_Raise in Hitems as (entry & Hin & Hentry).
    apply (proj1 (Forall_forall _ _) Hrates entry) in Hin.
    apply compute_metrics_Raise in Hentry as [[_ ->]|[[? _]|[? _]]]; [by eexists|lia..].
  - injection Hbody as ->. apply getitem_Raise in Hsplit as [-> _]. by eexists.
Qed.

(** ** Durations *)

(** Padding cannot shorten the tested duration. *)
Lemma exceeds_padded entry resynth max_duration d :
  0 < sampling_rate (audio entry) →
  own_duration entry = Ok d →
  exceeds d max_duration = true →
  exceeds (padded_duration entry resynth) max_duration = true.
Proof.
  intros Hrate. unfold own_duration, duration, padded_duration, padded_length, exceeds.
  simpl. case_decide; [lia|]. intros [= <-].
  rewrite !negb_true_iff, <- !not_true_iff_false, !Qle_bool_iff.
  intros Hown Hpadded. apply Hown. eapply Qle_trans; [|exact Hpadded].
  apply Qmult_le_compat_r.
  - rewrite <- Zle_Qle. lia.
  - apply Qinv_le_0_compat. replace 0%Q with (inject_Z 0) by done.
    rewrite <- Zle_Qle. lia.
Qed.

End Facts.

(** ** Aggregation *)

Lemma collect_lookup (aggregated_metrics : gmap string (list float)) (metrics : Metrics) k :
  collect aggregated_metrics metrics !! k
  = match metrics !! k with
    | Some v => Some (default [] (aggregated_metrics !! k) ++ [v])
    | None => aggregated_metrics !! k
    end.
Proof.
  unfold collect. revert k.
  apply (map_fold_weak_ind (λ (r : gmap string (list float)) (m : Metrics),
    ∀ k, r !! k = match m !! k with
                  | Some v => Some (default [] (aggregated_metrics !! k) ++ [v])
                  | None => aggregated_metrics !! k
                  end)).
  - intros k. by rewrite lookup_empty.
  - intros i x m r Hi IH k. destruct (decide (i = k)) as [->|Hne].
    + rewrite !lookup_insert_eq. by rewrite IH, Hi.
    + rewrite !lookup_insert_ne by done. apply IH.
Qed.

Lemma fold_collect_lookup (metrics_results : list Metrics)
    (aggregated_metrics : gmap string (list float)) k :
  fold_left collect metrics_results aggregated_metrics !! k
  = match values_of k metrics_results with
    | [] => aggregated_metrics !! k
    | vs => Some (default [] (aggregated_metrics !! k) ++ vs)
    end.
Proof.
  revert aggregated_metrics.
  induction metrics_results as [|r rs IH]; intros agg; [done|].
  simpl. rewrite IH, collect_lookup. unfold values_of. simpl.
  destruct (r !! k) as [v|]; simpl; [|done].
  destruct (omap _ rs); simpl; [done|]. by rewrite <- app_assoc.
Qed.

(** A metric is a key of the aggregation when a record holds it, and its
    list is never empty. *)
Lemma aggregate_lookup (metrics_results : list Metrics) k :
  aggregate metrics_results !! k
  = match values_of k metrics_results with
    | [] => None
    | vs => Some vs
    end.
Proof.
  unfold aggregate. rewrite fold_collect_lookup, lookup_empty.
  by destruct (values_of k metrics_results).
Qed.

Lemma aggregate_nil : aggregate [] = ∅.
Proof. done. Qed.

Lemma reduce_empty : reduce ∅ = ∅.
Proof. unfold reduce. apply fmap_empty. Qed.

Lemma values_of_Permutation k (rs rs' : list Metrics) :
  rs ≡ₚ rs' → values_of k rs ≡ₚ values_of k rs'.
Proof. unfold values_of. by intros ->. Qed.

(** ** The mean in exact arithmetic *)

Lemma exact_sum_Permutation v v' : v ≡ₚ v' → (exact_sum v == exact_sum v')%Q.
Proof.
  induction 1 as [|x v v' _ IH|x y v|v v' v'' _ IH1 _ IH2]; simpl.
  - reflexivity.
  - by rewrite IH.
  - ring.
  - by rewrite IH1.
Qed.

Lemma exact_nanmean_Permutation v v' : v ≡ₚ v' → exact_nanmean v = exact_nanmean v'.
Proof.
  intros Hperm. unfold exact_nanmean.
  assert (Hkept : filter (λ x, PrimFloat.is_nan x = false) v
                  ≡ₚ filter (λ x, PrimFloat.is_nan x = false) v') by by rewrite Hperm.
  revert Hkept. generalize (filter (λ x, PrimFloat.is_nan x = false) v).
  generalize (filter (λ x, PrimFloat.is_nan x = false) v'). intros l' l Hkept.
  destruct (decide (l ≠ [] ∧ _)) as [[Hne Hfin]|Hno];
    destruct (decide (l' ≠ [] ∧ _)) as [[Hne' Hfin']|Hno'].
  - f_equal. apply Qred_complete.
    by rewrite (exact_sum_Permutation _ _ Hkept), (Permutation_length Hkept).
  - destruct Hno'. split; [|by rewrite <- Hkept].
    intros ->. by apply Permutation_nil_r in Hkept.
  - destruct Hno. split; [|by rewrite Hkept].
    intros ->. by apply Permutation_nil_l in Hkept.
  - done.
Qed.

(** ** The mean in binary64 *)

Lemma pairwise_sum_S (depth : nat) (a : list float) :
  pairwise_sum (S depth) a
  = if decide (length a < 8)%nat then fold_left PrimFloat.add a 0%float
    else if decide (length a ≤ 128)%nat then block_sum a
    else (pairwise_sum depth (take (length a / 2 - (length a / 2) `mod` 8) a)
          + pairwise_sum depth (drop (length a / 2 - (length a / 2) `mod` 8) a))%float.
Proof. reflexivity. Qed.

(** The depth given to [pairwise_sum] does not matter once it is at least
    the length of the array. *)
Lemma pairwise_sum_depth (depth depth' : nat) (a : list float) :
  (length a ≤ depth)%nat → (length a ≤ depth')%nat →
  pairwise_sum depth a = pairwise_sum depth' a.
Proof.
  revert depth' a. induction depth as [|depth IH]; intros depth' a Hd Hd'.
  - destruct a; [|simpl in Hd; lia]. by destruct depth'.
  - destruct depth' as [|depth'].
    { destruct a; [done|simpl in Hd'; lia]. }
    rewrite !pairwise_sum_S. case_decide; [done|]. case_decide; [done|].
    assert (Hcut : (1 ≤ length a / 2 - (length a / 2) `mod` 8
                    ∧ length a / 2 - (length a / 2) `mod` 8 < length a)%nat).
    { pose proof (Nat.mod_upper_bound (length a / 2) 8).
      pose proof (Nat.div_mod_eq (length a) 2).
      pose proof (Nat.mod_upper_bound (length a) 2). lia. }
    f_equal; apply IH; rewrite ?length_take, ?length_drop; lia.
Qed.

Lemma pairwise_sum_short (depth : nat) (a : list float) :
  (length a < 8)%nat → pairwise_sum depth a = fold_left PrimFloat.add a 0%float.
Proof. intros Hshort. destruct depth; simpl; by case_decide. Qed.

(** Adding two floats to zero gives the same float in both orders. *)
Lemma SFadd_from_zero_comm (x y : spec_float) :
  SF64add (SF64add (S754_zero false) x) y = SF64add (SF64add (S754_zero false) y) x.
Proof.
  destruct x as [sx|sx| |sx mx ex], y as [sy|sy| |sy my ey];
    try destruct sx; try destruct sy; try reflexivity;
    unfold SF64add, SFadd; by rewrite Z.min_comm, Z.add_comm.
Qed.

Lemma add_from_zero_comm (x y : float) : ((0 + x) + y = (0 + y) + x)%float.
Proof.
  apply Prim2SF_inj. rewrite !add_spec.
  change (Prim2SF 0%float) with (S754_zero false). apply SFadd_from_zero_comm.
Qed.

Lemma np_nanmean_swap (x y : float) : np_nanmean [x; y] = np_nanmean [y; x].
Proof.
  unfold np_nanmean, np_sum.
  assert (Hcnt : length (filter (λ v, PrimFloat.is_nan v = false) [x; y])
                 = length (filter (λ v, PrimFloat.is_nan v = false) [y; x])).
  { apply Permutation_length. by rewrite (perm_swap x y []). }
  rewrite Hcnt, !pairwise_sum_short by (simpl; lia). simpl.
  by rewrite add_from_zero_comm.
Qed.

(** Up to two values, [np.nanmean] does not depend on their order. *)
Lemma np_nanmean_Permutation_short (v v' : list float) :
  v ≡ₚ v' → (length v ≤ 2)%nat → np_nanmean v = np_nanmean v'.
Proof.
  intros Hperm Hlen. destruct v as [|x [|y [|z v]]]; [| | |simpl in Hlen; lia].
  - by apply Permutation_nil_l in Hperm as ->.
  - by apply Permutation_singleton_l in Hperm as ->.
  - apply Permutation_length_2_inv in Hperm as [->| ->]; [done|apply np_nanmean_swap].
Qed.

(** * The properties of the specification *)

Section Claims.

Variable get_metrics : AudioSignal → AudioSignal → Metrics.
Variable load_dataset : string → bool → result DatasetDict.

Local Abbreviation compute_metrics := (compute_metrics get_metrics).
Local Abbreviation process_entry := (process_entry get_metrics).
Local Abbreviation evaluate_model := (evaluate_model get_metrics).
Local Abbreviation evaluate_dataset := (evaluate_dataset get_metrics load_dataset).

(** [C8] For every pair of an original and a resynthesized array, the two
    padded arrays have the same length, which is the larger of the two
    lengths, and nothing is cut: each array is found in full at the front
    of its padded version, and the longer one comes back unchanged. *)
Theorem padding_equalizes_lengths (original resynth : list float) :
  let padded := pad_arrays_to_match original resynth in
  length padded.1 = length padded.2
  ∧ length padded.1 = Nat.max (length original) (length resynth)
  ∧ take (length original) padded.1 = original
  ∧ take (length resynth) padded.2 = resynth
  ∧ (if decide (length resynth ≤ length original)%nat
     then padded.1 = original else padded.2 = resynth).
Proof.
  intros padded.
  destruct (pad_arrays_to_match_length original resynth) as [H1 H2].
  fold padded in H1, H2. split_and!.
  - by rewrite H1, H2.
  - done.
  - subst padded. simpl. by rewrite take_app_length.
  - subst padded. simpl. by rewrite take_app_length.
  - subst padded. unfold pad_arrays_to_match. simpl. case_decide.
    + replace (_ - _)%nat with 0%nat by lia. apply app_nil_r.
    + replace (_ - length resynth)%nat with 0%nat by lia. apply app_nil_r.
Qed.

(** [C6] Batch mode cuts the original split into batches that, put end to
    end, give the split back in order, whatever the batch size; when the
    batch size is at least one, no batch is empty or larger than the batch
    size (five entries in batches of two come as 2, 2 and 1). On the same
    data a run in batch mode is the run in streaming mode: same models
    evaluated, same result or same exception. *)
Theorem batch_mode_partitions_and_agrees (original : list Entry) (batch_size : Z)
    (dataset_name : string) (c : DatasetDict) (batch_mode : string)
    (specific_models : option (list string)) (max_duration : Z) :
  batch_mode ≠ "streaming"%string →
  load_dataset dataset_name true = Ok c →
  load_dataset dataset_name false = Ok c →
  concat (batched_dataset original batch_size) = original
  ∧ (1 ≤ batch_size →
     Forall (λ batch, batch ≠ [] ∧ Z.of_nat (length batch) ≤ batch_size)
            (batched_dataset original batch_size))
  ∧ (length original = 5%nat →
     length <$> batched_dataset original 2 = [2; 2; 1]%nat)
  ∧ evaluate_dataset dataset_name batch_mode batch_size specific_models max_duration
    = evaluate_dataset dataset_name "streaming" batch_size specific_models max_duration.
Proof.
  intros Hmode Hstreaming Hbatch. split_and!.
  - apply (batched_loop_concat original []).
  - intros Hsize. apply batched_loop_sizes. simpl. lia.
  - intros Hfive.
    destruct original as [|e1 [|e2 [|e3 [|e4 [|e5 [|e6 rest]]]]]]; by try discriminate.
  - unfold evaluate_dataset, Benchmarking.evaluate_dataset, is_streaming.
    rewrite bool_decide_eq_false_2, bool_decide_eq_true_2 by done.
    rewrite Hstreaming, Hbatch.
    apply evaluate_models_ext; [done|].
    intros m _. by rewrite !evaluate_model_items.
Qed.

Local Abbreviation metrics_of := (metrics_of get_metrics).

(** [C2] An original entry whose id is absent from the mapping of the model
    under evaluation is not skipped: [compute_metrics] raises a key-lookup
    error for that id, [process_entry] lets it through in streaming mode as
    in batch mode, the evaluation of the model raises, and so does the
    whole run, which returns no result. When the sampling rates of the
    original split are positive, the evaluation of the model ends on the
    key-lookup error for the first original entry whose id is missing, and
    the exception that ends the run is a key-lookup error. *)
Theorem missing_id_aborts_run (entry : Entry) (split original : list Entry)
    (c : DatasetDict) (model dataset_name mode : string) (batch_size : Z)
    (specific_models : option (list string)) (max_duration : Z) :
  load_dataset dataset_name (is_streaming mode) = Ok c →
  model ≠ "original"%string →
  skipped specific_models model = false →
  getitem c model = Ok split →
  getitem c "original"%string = Ok original →
  entry ∈ original →
  build_id_dict split !! id entry = None →
  let id_dict := build_id_dict split in
  let run := evaluate_dataset dataset_name mode batch_size specific_models max_duration in
  compute_metrics entry id_dict max_duration = Raise (KeyError (id entry))
  ∧ (∀ metrics_results,
       process_entry (Single entry) id_dict metrics_results max_duration
       = Raise (KeyError (id entry)))
  ∧ (∀ rest metrics_results,
       process_entry (Batch (entry :: rest)) id_dict metrics_results max_duration
       = Raise (KeyError (id entry)))
  ∧ raised (evaluate_model c mode batch_size max_duration model)
  ∧ raised (outcome run)
  ∧ (Forall (λ e, 0 < sampling_rate (audio e)) original →
     (∃ before first after,
        original = before ++ first :: after
        ∧ Forall (λ e, is_Some (id_dict !! id e)) before
        ∧ id_dict !! id first = None
        ∧ evaluate_model c mode batch_size max_duration model
          = Raise (KeyError (id first)))
     ∧ ∃ key, outcome run = Raise (KeyError key)).
Proof.
  intros Hload Hmodel Hskip Hsplit Horiginal Hin Hmissing id_dict run.
  pose proof (compute_metrics_missing get_metrics entry id_dict max_duration Hmissing)
    as Hentry.
  assert (Hbody : raised (evaluate_model c mode batch_size max_duration model))
    by by eapply evaluate_model_raised.
  assert (Hrun : raised (outcome run)).
  { eapply evaluate_dataset_raised; [done| |done..]. by eapply getitem_Ok_elem. }
  split_and!; [done| | |done|done|].
  - intros rs. simpl. by rewrite Hentry.
  - intros rest rs. simpl. by rewrite Hentry.
  - intros Hrates. split.
    + destruct (first_missing original id_dict entry Hin Hmissing)
        as (before & first & after & Hcut & Hbefore & Hfirst).
      exists before, first, after. split_and!; [done..|].
      rewrite evaluate_model_items, Hsplit, Horiginal. simpl. fold id_dict.
      rewrite Hcut, process_items_first_missing; [done| |done].
      rewrite Hcut in Hrates. apply Forall_app in Hrates as [Hrates _].
      apply Forall_forall. intros e He. split.
      * by apply (proj1 (Forall_forall _ _) Hbefore).
      * by apply (proj1 (Forall_forall _ _) Hrates).
    + destruct (outcome run) as [rd|e] eqn:Hout; [done|].
      destruct (evaluate_dataset_KeyError _ _ _ _ _ _ _ _ _ e
                  Hload Horiginal Hrates Hout) as [key ->].
      by exists key.
Qed.

(** [C9] The id is looked up before the duration is tested. For an entry
    whose own duration exceeds [max_duration]: when its id is missing from
    the mapping, [compute_metrics] raises the key-lookup error instead of
    skipping the entry, [process_entry] lets it through, and a run that
    meets this entry for a model it evaluates is aborted; when the id is
    there (and the sampling rate is positive), the entry is skipped. *)
Theorem missing_id_precedes_duration_check (entry : Entry) (d : Q)
    (split original : list Entry) (c : DatasetDict) (model dataset_name mode : string)
    (batch_size : Z) (specific_models : option (list string)) (max_duration : Z) :
  own_duration entry = Ok d →
  exceeds d max_duration = true →
  let id_dict := build_id_dict split in
  (id_dict !! id entry = None →
     compute_metrics entry id_dict max_duration = Raise (KeyError (id entry))
     ∧ (∀ metrics_results,
          process_entry (Single entry) id_dict metrics_results max_duration
          = Raise (KeyError (id entry)))
     ∧ (∀ rest metrics_results,
          process_entry (Batch (entry :: rest)) id_dict metrics_results max_duration
          = Raise (KeyError (id entry)))
     ∧ (load_dataset dataset_name (is_streaming mode) = Ok c →
        model ≠ "original"%string →
        skipped specific_models model = false →
        getitem c model = Ok split →
        getitem c "original"%string = Ok original →
        entry ∈ original →
        raised (outcome (evaluate_dataset dataset_name mode batch_size specific_models
                                          max_duration))))
  ∧ (is_Some (id_dict !! id entry) →
     0 < sampling_rate (audio entry) →
     compute_metrics entry id_dict max_duration = Ok None).
Proof.
  intros Hown Hexceeds id_dict. split.
  - intros Hmissing.
    pose proof (compute_metrics_missing get_metrics entry id_dict max_duration Hmissing)
      as Hentry.
    split_and!; [done| | |].
    + intros rs. simpl. by rewrite Hentry.
    + intros rest rs. simpl. by rewrite Hentry.
    + intros Hload Hmodel Hskip Hsplit Horiginal Hin.
      eapply evaluate_dataset_raised; [done| |done..|].
      * by eapply getitem_Ok_elem.
      * by eapply evaluate_model_raised.
  - intros [resynth Hid] Hrate.
    rewrite (compute_metrics_present _ _ _ _ _ Hid) by lia.
    by rewrite (exceeds_padded _ _ _ _ Hrate Hown Hexceeds).
Qed.

(** [C3] For an original entry whose id is in the mapping of the model
    (and whose sampling rate is positive), what decides is the duration of
    the original signal after padding, that is the larger of the two
    numbers of samples over the sampling rate. When it is at most
    [max_duration], the entry contributes exactly one record, appended to
    the accumulated list; when it exceeds [max_duration], the entry is
    dropped without an error and the list is left as it was. This holds in
    streaming mode and, entry after entry, inside a batch. *)
Theorem duration_filter_on_padded_signal (entry : Entry)
    (id_dict : gmap string (list float)) (resynth : list float)
    (metrics_results : list Metrics) (rest : list Entry) (max_duration : Z) :
  id_dict !! id entry = Some resynth →
  0 < sampling_rate (audio entry) →
  ((padded_duration entry resynth <= inject_Z max_duration)%Q →
     compute_metrics entry id_dict max_duration = Ok (Some (metrics_of entry resynth))
     ∧ process_entry (Single entry) id_dict metrics_results max_duration
       = Ok (metrics_results ++ [metrics_of entry resynth])
     ∧ process_entry (Batch (entry :: rest)) id_dict metrics_results max_duration
       = process_entry (Batch rest) id_dict
           (metrics_results ++ [metrics_of entry resynth]) max_duration)
  ∧ ((inject_Z max_duration < padded_duration entry resynth)%Q →
     compute_metrics entry id_dict max_duration = Ok None
     ∧ process_entry (Single entry) id_dict metrics_results max_duration
       = Ok metrics_results
     ∧ process_entry (Batch (entry :: rest)) id_dict metrics_results max_duration
       = process_entry (Batch rest) id_dict metrics_results max_duration).
Proof.
  intros Hid Hrate.
  pose proof (compute_metrics_present get_metrics entry id_dict max_duration resynth
                Hid Hrate) as Hentry.
  unfold exceeds in Hentry. split.
  - intros Hle%Qle_bool_iff. rewrite Hle in Hentry. simpl in *.
    by rewrite Hentry.
  - intros Hlt%Qlt_not_le. rewrite <- Qle_bool_iff in Hlt.
    apply not_true_is_false in Hlt. rewrite Hlt in Hentry. simpl in *.
    by rewrite Hentry.
Qed.

(** [C1] A model with an empty split has an empty mapping. If the original
    split has an entry, the evaluation of the model raises a key-lookup
    error for the id of the first original entry and the run is aborted:
    nothing is written, for this model or another. If the original split
    is empty as well, the run completes and the result of the model is the
    empty mapping: it has no metric, so no not-a-number either. *)
Theorem empty_split_aborts_unless_original_is_empty (original : list Entry)
    (c : DatasetDict) (model dataset_name mode : string) (batch_size : Z)
    (specific_models : option (list string)) (max_duration : Z) :
  load_dataset dataset_name (is_streaming mode) = Ok c →
  model ≠ "original"%string →
  skipped specific_models model = false →
  getitem c model = Ok [] →
  getitem c "original"%string = Ok original →
  let run := evaluate_dataset dataset_name mode batch_size specific_models max_duration in
  match original with
  | first :: _ =>
      evaluate_model c mode batch_size max_duration model = Raise (KeyError (id first))
      ∧ raised (outcome run)
  | [] =>
      ∃ result_data, outcome run = Ok result_data ∧ result_data !! model = Some ∅
  end.
Proof.
  intros Hload Hmodel Hskip Hsplit Horiginal run.
  assert (Hkey : model ∈ keys c) by by eapply getitem_Ok_elem.
  destruct original as [|first rest].
  - assert (Hbody : ∀ m, m ∈ keys c → evaluate_model c mode batch_size max_duration m = Ok ∅).
    { intros m [s Hs]%getitem_Ok. by rewrite evaluate_model_items, Hs, Horiginal. }
    subst run. unfold evaluate_dataset, Benchmarking.evaluate_dataset. rewrite Hload.
    edestruct (evaluate_models_completes get_metrics c max_duration mode batch_size
                 specific_models) as [rd Hrd].
    { intros m [_ Hm]%elem_of_models _. exists ∅. by apply Hbody. }
    exists rd. split; [exact Hrd|].
    destruct (proj1 (evaluate_models_Ok _ _ _ _ _ _ _ _ _ Hrd model)) as (r & Hr & ->);
      [by apply elem_of_models|done|].
    rewrite Hbody in Hr by done. by injection Hr as <-.
  - assert (Hraise : evaluate_model c mode batch_size max_duration model
                     = Raise (KeyError (id first))).
    { rewrite evaluate_model_items, Hsplit, Horiginal. simpl.
      by rewrite compute_metrics_missing by apply lookup_empty. }
    split; [done|].
    eapply evaluate_dataset_raised; [done..|]. by rewrite Hraise.
Qed.

(** [C4] A name given to [--models] that is not a split of the dataset
    raises nothing: it is ignored. The run is the run without that name,
    the body of the loop is never entered for it and the result has no key
    for it; when none of the names is a split the run writes the empty
    mapping and the process exits with status 0. *)
Theorem unknown_model_name_is_ignored (name : string) (before after : list string)
    (c : DatasetDict) (dataset_name mode : string) (batch_size max_duration : Z) :
  load_dataset dataset_name (is_streaming mode) = Ok c →
  name ∉ keys c →
  let run := evaluate_dataset dataset_name mode batch_size
               (Some (before ++ name :: after)) max_duration in
  run = evaluate_dataset dataset_name mode batch_size (Some (before ++ after)) max_duration
  ∧ (name ∉ evaluated run)
  ∧ (∀ result_data, outcome run = Ok result_data → result_data !! name = None)
  ∧ ((∀ n, n ∈ before ++ after → n ∉ keys c) →
     run = mkRun [] (Ok ∅) ∧ exit_code run = 0).
Proof.
  intros Hload Hname run. subst run.
  unfold evaluate_dataset, Benchmarking.evaluate_dataset. rewrite Hload.
  assert (Hmodels : name ∉ filter (λ key, key ≠ "original"%string) (keys c)).
  { by intros [_ ?]%elem_of_models. }
  split_and!.
  - apply evaluate_models_ext; [|done].
    intros m [_ Hm]%elem_of_models. unfold skipped. f_equal.
    apply bool_decide_ext. rewrite !elem_of_app, elem_of_cons.
    split; [|tauto]. intros [?|[->|?]]; tauto.
  - by intros [? _]%evaluate_models_evaluated.
  - intros rd Hrd.
    rewrite (proj2 (evaluate_models_Ok _ _ _ _ _ _ _ _ _ Hrd name)) by by left.
    apply lookup_empty.
  - intros Hnone.
    rewrite evaluate_models_all_skipped; [done|].
    intros m [_ Hm]%elem_of_models. unfold skipped.
    rewrite bool_decide_eq_false_2; [done|].
    rewrite elem_of_app, elem_of_cons. intros [?|[->|?]]; [|done|].
    + apply (Hnone m); [|done]. apply elem_of_app. by left.
    + apply (Hnone m); [|done]. apply elem_of_app. by right.
Qed.

(** [C5] With [--models] naming a list of models (empty or not), the body
    of the loop, which starts by building the id-to-array mapping, is
    entered for named models only, and the keys of the result are named
    models. *)
Theorem only_named_models_are_evaluated (names : list string)
    (dataset_name mode : string) (batch_size max_duration : Z) :
  let run := evaluate_dataset dataset_name mode batch_size (Some names) max_duration in
  Forall (λ model, model ∈ names) (evaluated run)
  ∧ match outcome run with
    | Ok result_data => ∀ model, is_Some (result_data !! model) → model ∈ names
    | Raise _ => True
    end.
Proof.
  intros run. subst run.
  assert (Hnamed : ∀ m, skipped (Some names) m = false → m ∈ names).
  { intros m. unfold skipped. rewrite negb_false_iff. apply bool_decide_eq_true_1. }
  unfold evaluate_dataset, Benchmarking.evaluate_dataset.
  destruct (load_dataset dataset_name (is_streaming mode)) as [c|e]; simpl;
    [|split; [apply Forall_nil_2|done]].
  split.
  - apply Forall_forall. intros m [_ ?]%evaluate_models_evaluated. by apply Hnamed.
  - destruct (outcome _) as [rd|e] eqn:Hrd; [|done].
    intros m Hm. pose proof (evaluate_models_Ok _ _ _ _ _ _ _ _ _ Hrd m) as [_ Hout].
    destruct (skipped (Some names) m) eqn:Hskip; [|by apply Hnamed].
    rewrite Hout, lookup_empty in Hm by by right. by destruct Hm.
Qed.

(** [C10] Whatever the dataset and the filter, the body of the loop is
    never entered for ["original"] and ["original"] is not a key of the
    result. *)
Theorem original_is_never_a_key (dataset_name mode : string) (batch_size : Z)
    (specific_models : option (list string)) (max_duration : Z) :
  let run := evaluate_dataset dataset_name mode batch_size specific_models max_duration in
  ("original"%string ∉ evaluated run)
  ∧ match outcome run with
    | Ok result_data => result_data !! "original"%string = None
    | Raise _ => True
    end.
Proof.
  intros run. subst run.
  unfold evaluate_dataset, Benchmarking.evaluate_dataset.
  destruct (load_dataset dataset_name (is_streaming mode)) as [c|e]; simpl;
    [|split; [apply not_elem_of_nil|done]].
  assert (Hmodels : "original"%string ∉ filter (λ key, key ≠ "original"%string) (keys c)).
  { by intros [? _]%elem_of_models. }
  split.
  - by intros [? _]%evaluate_models_evaluated.
  - destruct (outcome _) as [rd|e] eqn:Hrd; [|done].
    rewrite (proj2 (evaluate_models_Ok _ _ _ _ _ _ _ _ _ Hrd "original"%string)) by by left.
    apply lookup_empty.
Qed.

(** [C7] Permuting the records leaves the metric names of the result as
    they are, and the mean of a metric is [np.nanmean] of the same
    collected values, in an order that may differ. So the mean is the
    same in exact arithmetic; the binary64 mean that is written is the
    same when the metric has at most two values, or when its values come
    in the same order. (With three values or more it depends on the
    order.) *)
Theorem permuted_records_give_means_of_permuted_values
    (metrics_results permuted : list Metrics) (k : string) :
  metrics_results ≡ₚ permuted →
  let values := values_of k metrics_results in
  let values' := values_of k permuted in
  values ≡ₚ values'
  ∧ reduce (aggregate metrics_results) !! k
    = match values with
      | [] => None
      | _ :: _ => Some (np_nanmean values)
      end
  ∧ reduce (aggregate permuted) !! k
    = match values' with
      | [] => None
      | _ :: _ => Some (np_nanmean values')
      end
  ∧ (is_Some (reduce (aggregate metrics_results) !! k)
     ↔ is_Some (reduce (aggregate permuted) !! k))
  ∧ exact_nanmean values = exact_nanmean values'
  ∧ ((length values ≤ 2)%nat ∨ values = values' →
     reduce (aggregate metrics_results) !! k = reduce (aggregate permuted) !! k).
Proof.
  intros Hperm%(values_of_Permutation k) values values'.
  fold values values' in Hperm.
  assert (Hmean : ∀ rs, reduce (aggregate rs) !! k
                        = match values_of k rs with
                          | [] => None
                          | _ :: _ => Some (np_nanmean (values_of k rs))
                          end).
  { intros rs. unfold reduce. rewrite lookup_fmap, aggregate_lookup.
    by destruct (values_of k rs). }
  rewrite !Hmean. fold values values'.
  split_and!; [done..| |by apply exact_nanmean_Permutation|].
  - destruct values, values'; [done| | |by split; eexists].
    + by apply Permutation_nil_l in Hperm.
    + by apply Permutation_nil_r in Hperm.
  - intros [Hshort| <-]; [|done].
    rewrite <- (np_nanmean_Permutation_short _ _ Hperm Hshort).
    destruct values, values'; [done| | |done].
    + by apply Permutation_nil_l in Hperm.
    + by apply Permutation_nil_r in Hperm.
Qed.

End Claims.

(** In batches of two, the five entries of [five] come as 2, 2 and 1, and
    the run in batch mode and the run in streaming mode write the same
    means for ["m"]. *)
Lemma batch_mode_partitions_and_agrees_witness :
  concat (batched_dataset five_clips 2) = five_clips
  ∧ Forall (λ batch, batch ≠ [] ∧ Z.of_nat (length batch) ≤ 2) (batched_dataset five_clips 2)
  ∧ length <$> batched_dataset five_clips 2 = [2; 2; 1]%nat
  ∧ evaluate_dataset count_samples (loaded five) "five" "batch" 2 None 120
    = evaluate_dataset count_samples (loaded five) "five" "streaming" 2 None 120.
Proof.
  destruct (batch_mode_partitions_and_agrees count_samples (loaded five) five_clips 2
              "five" five "batch" None 120) as (Hconcat & Hsizes & Hfive & Hsame).
  - discriminate.
  - reflexivity.
  - reflexivity.
  - split_and!; [exact Hconcat|apply Hsizes; lia|apply Hfive; reflexivity|exact Hsame].
Defined.

(** With a batch size of zero the only batch is larger than the batch size. *)
Lemma batch_size_zero_exceeds :
  ¬ (∀ (original : list Entry) (batch_size : Z),
       Forall (λ batch, Z.of_nat (length batch) ≤ batch_size)
              (batched_dataset original batch_size)).
Proof.
  intros Hall. specialize (Hall [clip "1" [1]%float] 0).
  apply Forall_cons in Hall as [Hle _]. simpl in Hle. lia.
Qed.

(** ** Examples *)

Lemma missing_id_aborts_run_witness :
  compute_metrics count_samples (clip "2" [3; 4]%float)
                  (build_id_dict [clip "1" [1; 2]%float]) 120
  = Raise (KeyError "2")
  ∧ raised (outcome (evaluate_dataset count_samples (loaded lacking)
                                      "lacking" "batch" 100 None 120))
  ∧ (∃ before first after,
       [clip "1" [1; 2]%float; clip "2" [3; 4]%float] = before ++ first :: after
       ∧ Forall (λ e, is_Some (build_id_dict [clip "1" [1; 2]%float] !! id e)) before
       ∧ build_id_dict [clip "1" [1; 2]%float] !! id first = None
       ∧ evaluate_model count_samples lacking "batch" 100 120 "m"
         = Raise (KeyError (id first)))
  ∧ ∃ key, outcome (evaluate_dataset count_samples (loaded lacking)
                                     "lacking" "batch" 100 None 120)
           = Raise (KeyError key).
Proof.
  destruct (missing_id_aborts_run count_samples (loaded lacking)
              (clip "2" [3; 4]%float) [clip "1" [1; 2]%float]
              [clip "1" [1; 2]%float; clip "2" [3; 4]%float]
              lacking "m" "lacking" "batch" 100 None 120)
    as (Hentry & _ & _ & _ & Hrun & Hkey).
  - reflexivity.
  - discriminate.
  - reflexivity.
  - reflexivity.
  - reflexivity.
  - right. left.
  - reflexivity.
  - destruct Hkey as [Hmodel Hkey]; [repeat constructor|].
    split_and!; [exact Hentry|exact Hrun|exact Hmodel|exact Hkey].
Defined.

Lemma missing_id_precedes_duration_check_witness :
  compute_metrics count_samples slow (build_id_dict [clip "1" [1]%float]) 2
  = Raise (KeyError "slow")
  ∧ raised (outcome (evaluate_dataset count_samples (loaded slow_missing)
                                      "slow" "streaming" 100 None 2))
  ∧ compute_metrics count_samples slow (build_id_dict [slow]) 2 = Ok None.
Proof.
  destruct (missing_id_precedes_duration_check count_samples (loaded slow_missing)
              slow (3 # 1) [clip "1" [1]%float] [slow] slow_missing
              "m" "slow" "streaming" 100 None 2) as [Hmissing _].
  - reflexivity.
  - reflexivity.
  - destruct Hmissing as (Hentry & _ & _ & Hrun); [reflexivity|].
    destruct (missing_id_precedes_duration_check count_samples (loaded slow_missing)
                slow (3 # 1) [slow] [slow] slow_missing
                "m" "slow" "streaming" 100 None 2) as [_ Hpresent].
    + reflexivity.
    + reflexivity.
    + split_and!.
      * exact Hentry.
      * apply Hrun; [reflexivity|discriminate|reflexivity|reflexivity|reflexivity|left].
      * apply Hpresent; [by eexists|reflexivity].
Defined.

(** The entry of the scenario lasts four samples once padded and is kept;
    [slow] against a resynthesis of its own length is dropped. *)
Lemma duration_filter_on_padded_signal_witness :
  process_entry count_samples (Single (clip "1" [1; 2; 3; 4]%float))
                (build_id_dict [clip "1" [1; 2; 3]%float]) [] 120
  = Ok [count_samples (mkAudioSignal [1; 2; 3; 4]%float 16000)
                      (mkAudioSignal [1; 2; 3; 0]%float 16000)]
  ∧ process_entry count_samples (Single slow) (build_id_dict [slow]) [] 2 = Ok [].
Proof.
  split.
  - destruct (duration_filter_on_padded_signal count_samples
                (clip "1" [1; 2; 3; 4]%float) (build_id_dict [clip "1" [1; 2; 3]%float])
                [1; 2; 3]%float [] [] 120) as [Hkept _].
    + reflexivity.
    + reflexivity.
    + destruct Hkept as (_ & Hsingle & _); [by apply Qle_bool_iff|exact Hsingle].
  - destruct (duration_filter_on_padded_signal count_samples
                slow (build_id_dict [slow]) [1; 2; 3]%float [] [] 2) as [_ Hdropped].
    + reflexivity.
    + reflexivity.
    + destruct Hdropped as (_ & Hsingle & _); [reflexivity|exact Hsingle].
Defined.

(** Four samples at two per second last the two seconds allowed, but the
    resynthesis has a fifth sample: the entry is dropped. *)
Lemma long_resynthesis_drops_short_original :
  ¬ (∀ (entry : Entry) (id_dict : gmap string (list float))
       (metrics_results : list Metrics) (max_duration : Z) (d : Q),
       is_Some (id_dict !! id entry) →
       0 < sampling_rate (audio entry) →
       own_duration entry = Ok d →
       exceeds d max_duration = false →
       ∃ record,
         process_entry count_samples (Single entry) id_dict metrics_results max_duration
         = Ok (metrics_results ++ [record])).
Proof.
  intros Hclaim.
  edestruct (Hclaim (mkEntry "1" (mkAudio [1; 2; 3; 4]%float 2))
                    {[ "1"%string := [1; 2; 3; 4; 5]%float ]} [] 2)
    as [record Hrecord].
  - by eexists.
  - reflexivity.
  - reflexivity.
  - reflexivity.
  - vm_compute in Hrecord. discriminate.
Qed.

Lemma empty_split_aborts_unless_original_is_empty_witness :
  (evaluate_model count_samples hollow "streaming" 100 120 "m" = Raise (KeyError "1")
   ∧ raised (outcome (evaluate_dataset count_samples (loaded hollow)
                                       "hollow" "streaming" 100 None 120)))
  ∧ ∃ result_data,
      outcome (evaluate_dataset count_samples (loaded void) "void" "streaming" 100 None 120)
      = Ok result_data
      ∧ result_data !! "m"%string = Some ∅.
Proof.
  split.
  - apply (empty_split_aborts_unless_original_is_empty count_samples (loaded hollow)
             [clip "1" [1; 2]%float] hollow "m" "hollow" "streaming" 100 None 120);
      [reflexivity|discriminate|reflexivity|reflexivity|reflexivity].
  - apply (empty_split_aborts_unless_original_is_empty count_samples (loaded void)
             [] void "m" "void" "streaming" 100 None 120);
      [reflexivity|discriminate|reflexivity|reflexivity|reflexivity].
Defined.

(** On [hollow] the run does not complete: the empty split of ["m"] has
    no array for the original entry. *)
Lemma empty_split_aborts_run :
  ¬ (∀ (c : DatasetDict) (model : string),
       model ≠ "original"%string →
       getitem c model = Ok [] →
       ∃ result_data model_result,
         outcome (evaluate_dataset count_samples (loaded c) "c" "streaming" 100 None 120)
         = Ok result_data
         ∧ result_data !! model = Some model_result
         ∧ ∀ k v, model_result !! k = Some v → PrimFloat.is_nan v = true).
Proof.
  intros Hclaim.
  destruct (Hclaim hollow "m"%string) as (rd & r & Hrun & _); [discriminate|reflexivity|].
  vm_compute in Hrun. discriminate.
Qed.

Lemma unknown_model_name_is_ignored_witness :
  evaluate_dataset count_samples (loaded scenario) "scenario" "streaming" 100
                   (Some ["ghost"%string]) 120
  = mkRun [] (Ok ∅)
  ∧ exit_code (evaluate_dataset count_samples (loaded scenario) "scenario" "streaming" 100
                                (Some ["ghost"%string]) 120) = 0.
Proof.
  destruct (unknown_model_name_is_ignored count_samples (loaded scenario)
              "ghost" [] [] scenario "scenario" "streaming" 100 120)
    as (_ & _ & _ & Hnone).
  - reflexivity.
  - intros Hin. repeat (apply elem_of_cons in Hin as [Heq|Hin]; [discriminate|]).
    by apply elem_of_nil in Hin.
  - apply Hnone. by intros n Hin%elem_of_nil.
Defined.

(** A name that is no split of the dataset raises nothing: the process
    exits with status 0. *)
Lemma unknown_model_name_exits_normally :
  ¬ (∀ (c : DatasetDict) (names : list string) (name : string),
       name ∈ names → name ∉ keys c →
       exit_code (main count_samples (loaded c)
                       (mkArgs "c" "streaming" 100 (Some names) 120)) ≠ 0).
Proof.
  intros Hclaim. apply (Hclaim scenario ["ghost"%string] "ghost"%string).
  - left.
  - intros Hin. repeat (apply elem_of_cons in Hin as [Heq|Hin]; [discriminate|]).
    by apply elem_of_nil in Hin.
  - reflexivity.
Qed.

(** The scenario of the spec with [--models other_model]: no model is
    evaluated and the result has no key ["m"]. *)
Example scenario_other_model :
  evaluate_dataset count_samples (loaded scenario) "scenario" "streaming" 100
                   (Some ["other_model"%string]) 120
  = mkRun [] (Ok ∅).
Proof. vm_compute. reflexivity. Qed.

Lemma only_named_models_are_evaluated_witness :
  ∃ result_data,
    outcome (evaluate_dataset count_samples (loaded scenario) "scenario" "streaming" 100
                              (Some ["other_model"%string]) 120) = Ok result_data
    ∧ result_data !! "m"%string = None.
Proof.
  destruct (only_named_models_are_evaluated count_samples (loaded scenario)
              ["other_model"%string] "scenario" "streaming" 100 120) as [_ Hkeys].
  destruct (outcome _) as [rd|e] eqn:Hrd; [|by rewrite scenario_other_model in Hrd].
  exists rd. split; [reflexivity|].
  destruct (rd !! "m"%string) as [r|] eqn:Hm; [|reflexivity].
  assert (Hin : "m"%string ∈ ["other_model"%string]) by (apply Hkeys; by eexists).
  apply elem_of_cons in Hin as [Heq|Hin]; [discriminate|by apply elem_of_nil in Hin].
Defined.

(** The scenario of the spec: one record, whose values are the means. *)
Example scenario_run :
  evaluate_dataset count_samples (loaded scenario) "scenario" "batch" 100 None 120
  = mkRun ["m"%string] (Ok {[ "m"%string := {[ "samples"%string := 4%float ]} ]}).
Proof. vm_compute. reflexivity. Qed.

Lemma original_is_never_a_key_witness :
  ∃ result_data,
    outcome (evaluate_dataset count_samples (loaded scenario) "scenario" "batch" 100
                              None 120) = Ok result_data
    ∧ result_data !! "original"%string = None.
Proof.
  pose proof (original_is_never_a_key count_samples (loaded scenario)
                "scenario" "batch" 100 None 120) as [_ Hkey].
  rewrite scenario_run in Hkey. rewrite scenario_run. eexists. split; [reflexivity|exact Hkey].
Defined.

Lemma permuted_records_give_means_of_permuted_values_witness :
  reduce (aggregate [snr big; snr 1]) !! "snr"%string
  = reduce (aggregate [snr 1; snr big]) !! "snr"%string
  ∧ exact_nanmean (values_of "snr" [snr big; snr 1; snr 1])
    = exact_nanmean (values_of "snr" [snr 1; snr 1; snr big]).
Proof.
  split.
  - destruct (permuted_records_give_means_of_permuted_values
                [snr big; snr 1] [snr 1; snr big] "snr")
      as (_ & _ & _ & _ & _ & Hsame); [apply perm_swap|].
    apply Hsame. left. vm_compute. lia.
  - destruct (permuted_records_give_means_of_permuted_values
                [snr big; snr 1; snr 1] [snr 1; snr 1; snr big] "snr")
      as (_ & _ & _ & _ & Hexact & _).
    + apply (Permutation_cons_append [snr 1; snr 1] (snr big)).
    + exact Hexact.
Defined.

(** In exact arithmetic the mean of these three values is (2^53 + 2) / 3,
    in one order as in the other. *)
Example exact_nanmean_big :
  exact_nanmean [big; 1; 1]%float = Some (9007199254740994 # 3)
  ∧ exact_nanmean [1; 1; big]%float = Some (9007199254740994 # 3).
Proof. split; vm_compute; reflexivity. Qed.

(** In binary64 the two orders give two means: adding 1 to 2^53 twice
    leaves 2^53, adding 2 to it does not. *)
Example np_nanmean_big :
  np_nanmean [big; 1; 1]%float = 3002399751580330.5%float
  ∧ np_nanmean [1; 1; big]%float = 3002399751580331.5%float.
Proof. split; vm_compute; reflexivity. Qed.

(** From eight values on the sum goes by blocks: 2^53 and seven ones add
    up to 2^53 + 6, where a sum from left to right would stay at 2^53. *)
Example np_nanmean_blocks :
  np_nanmean (big :: replicate 7 1%float) = 1125899906842624.75%float.
Proof. vm_compute. reflexivity. Qed.

(** Three finite values whose sum overflows in one order and not in the
    other. *)
Example np_nanmean_overflow :
  np_nanmean [huge; huge; - huge]%float = infinity
  ∧ PrimFloat.ltb (np_nanmean [huge; - huge; huge]%float) huge = true.
Proof. split; vm_compute; reflexivity. Qed.

(** The same three records in two orders: an infinite mean and a finite
    one, which no tolerance reconciles. *)
Lemma mean_depends_on_order :
  ¬ (∀ (metrics_results permuted : list Metrics) (k : string),
       metrics_results ≡ₚ permuted →
       reduce (aggregate metrics_results) !! k = reduce (aggregate permuted) !! k).
Proof.
  intros Hclaim.
  specialize (Hclaim [snr huge; snr huge; snr (- huge)]
                     [snr huge; snr (- huge); snr huge] "snr"%string
                     (perm_skip _ (perm_swap _ _ _))).
  apply (f_equal (λ o, match o with
                       | Some mean => PrimFloat.ltb mean huge
                       | None => false
                       end)) in Hclaim.
  vm_compute in Hclaim. discriminate.
Qed.

(** * Further properties of the pipeline *)

(** ** batched_dataset *)

Lemma batched_loop_nonempty {A} (dataset batch : list A) batch_size :
  Forall (λ b, b ≠ []) (batched_loop dataset batch batch_size).
Proof.
  revert batch. induction dataset as [|x dataset IH]; intros batch; simpl.
  - destruct batch; by repeat constructor.
  - case_decide; [|apply IH]. constructor; [by destruct batch|apply IH].
Qed.

(** [X1] Whatever the batch size, zero and negative sizes included,
    [batched_dataset] never yields an empty batch: an empty split gives no
    batch at all, and the number of batches is at most the number of
    entries. *)
Theorem batches_are_never_empty {A} (dataset : list A) (batch_size : Z) :
  Forall (λ batch, batch ≠ []) (batched_dataset dataset batch_size)
  ∧ (length (batched_dataset dataset batch_size) ≤ length dataset)%nat
  ∧ (dataset = [] ↔ batched_dataset dataset batch_size = []).
Proof.
  pose proof (batched_loop_nonempty dataset [] batch_size) as Hne.
  pose proof (batched_loop_concat dataset [] batch_size) as Hconcat.
  fold (batched_dataset dataset batch_size) in Hne, Hconcat. simpl in Hconcat.
  split_and!; [done| |].
  - rewrite <- Hconcat at 2. clear Hconcat.
    induction Hne as [|b bs Hb _ IH]; simpl; [done|].
    rewrite length_app. destruct b; [done|]. simpl. lia.
  - split; [by intros ->|]. intros Hnil. by rewrite Hnil in Hconcat.
Qed.

Lemma batched_loop_count {A} (dataset batch : list A) batch_size :
  Z.of_nat (length batch) < batch_size →
  Z.of_nat (length (batched_loop dataset batch batch_size))
  = (Z.of_nat (length batch + length dataset) + batch_size - 1) `div` batch_size.
Proof.
  revert batch. induction dataset as [|x dataset IH]; intros batch Hlt; simpl.
  - rewrite Nat.add_0_r. destruct batch as [|y batch]; simpl length.
    + symmetry. apply Z.div_small. lia.
    + apply Z.div_unique with (r := Z.of_nat (length (y :: batch)) - 1);
        simpl length in *; lia.
  - assert (Hlen : length (batch ++ [x]) = S (length batch))
      by (rewrite length_app; simpl; lia).
    case_decide as Hfull.
    + simpl length. rewrite Nat2Z.inj_succ, IH by (simpl; lia). simpl length.
      replace (Z.of_nat (length batch + S (length dataset)) + batch_size - 1)
        with (1 * batch_size + (Z.of_nat (0 + length dataset) + batch_size - 1)) by lia.
      rewrite Z.div_add_l by lia. lia.
    + rewrite IH by lia. f_equal. lia.
Qed.

(** [X2] With a batch size of at least one, the split of [n] entries comes
    in [ceil(n / batch_size)] batches, and every batch but the last one
    holds exactly [batch_size] entries. *)
Theorem batches_are_full_but_the_last {A} (dataset : list A) (batch_size : Z) :
  1 ≤ batch_size →
  Z.of_nat (length (batched_dataset dataset batch_size))
  = (Z.of_nat (length dataset) + batch_size - 1) `div` batch_size
  ∧ ∀ i batch, (S i < length (batched_dataset dataset batch_size))%nat →
               batched_dataset dataset batch_size !! i = Some batch →
               Z.of_nat (length batch) = batch_size.
Proof.
  intros Hsize. split.
  - unfold batched_dataset. rewrite batched_loop_count by (simpl; lia). done.
  - apply batched_loop_full. simpl. lia.
Qed.

Lemma batched_loop_single {A} (dataset batch : list A) batch_size :
  batch_size ≤ Z.of_nat (length batch)
  ∨ Z.of_nat (length batch + length dataset) < batch_size →
  batched_loop dataset batch batch_size
  = match batch ++ dataset with
    | [] => []
    | _ :: _ => [batch ++ dataset]
    end.
Proof.
  revert batch. induction dataset as [|x dataset IH]; intros batch Hout; simpl.
  - rewrite app_nil_r. by destruct batch.
  - assert (Hlen : length (batch ++ [x]) = S (length batch))
      by (rewrite length_app; simpl; lia).
    simpl length in Hout. case_decide as Hfull; [lia|].
    rewrite IH by (rewrite Hlen; lia). by rewrite <- app_assoc.
Qed.

(** [X3] A batch size that is zero, negative or larger than the split
    does no batching: a split that is not empty comes as one batch, the
    split itself. *)
Theorem batch_size_out_of_range_gives_one_batch {A} (dataset : list A) (batch_size : Z) :
  dataset ≠ [] →
  batch_size ≤ 0 ∨ Z.of_nat (length dataset) < batch_size →
  batched_dataset dataset batch_size = [dataset].
Proof.
  intros Hne Hout. unfold batched_dataset.
  rewrite batched_loop_single by (simpl; lia). simpl. by destruct dataset.
Qed.

(** ** The id-to-array mapping *)

(** [X4] The mapping gives an id the array of the last entry of the
    model's split that carries it: when several entries carry the same id,
    the later ones replace the earlier ones, and an id that no entry
    carries has no array. *)
Theorem build_id_dict_last_wins (split : list Entry) (k : string) :
  build_id_dict split !! k
  = (λ entry, array (audio entry)) <$> last (filter (λ entry, id entry = k) split).
Proof.
  unfold build_id_dict. induction split as [|entry split IH] using rev_ind; [done|].
  rewrite fold_left_app, filter_app. simpl.
  destruct (decide (id entry = k)) as [Hk|Hk].
  - rewrite Hk, lookup_insert_eq.
    rewrite (filter_cons_True _ entry []) by done. by rewrite filter_nil, last_snoc.
  - rewrite lookup_insert_ne by done.
    rewrite (filter_cons_False _ entry []) by done. by rewrite filter_nil, app_nil_r.
Qed.

Section Entries.

Variable get_metrics : AudioSignal → AudioSignal → Metrics.

Local Abbreviation compute_metrics := (compute_metrics get_metrics).
Local Abbreviation process_items := (process_items get_metrics).
Local Abbreviation process_entry := (process_entry get_metrics).
Local Abbreviation process_dataset := (process_dataset get_metrics).
Local Abbreviation kept_record := (kept_record get_metrics).

(** ** The accumulated list *)

Lemma process_items_prefix es id_dict metrics_results max_duration rs :
  process_items es id_dict metrics_results max_duration = Ok rs →
  metrics_results `prefix_of` rs
  ∧ (length rs ≤ length metrics_results + length es)%nat.
Proof.
  revert metrics_results. induction es as [|e es IH]; intros rs0; simpl.
  - intros [= <-]. split; [done|lia].
  - destruct (compute_metrics e id_dict max_duration) as [[m|]|]; simpl; [| |done].
    + intros [Hpre Hlen]%IH. rewrite length_app in Hlen. simpl in Hlen. split; [|lia].
      etrans; [|exact Hpre]. by apply prefix_app_r.
    + intros [Hpre Hlen]%IH. split; [done|lia].
Qed.

(** [X5] [process_entry] and the loop that calls it only ever append to
    [metrics_results]: when they return, the records that were there are
    still at the front, in place, and at most one record was added per
    entry met. *)
Theorem metrics_results_only_grows (dataset_iterable : list item)
    (id_dict : gmap string (list float)) (metrics_results rs : list Metrics)
    (max_duration : Z) :
  process_dataset dataset_iterable id_dict metrics_results max_duration = Ok rs →
  metrics_results `prefix_of` rs
  ∧ (length rs ≤ length metrics_results + length (concat (entries_of <$> dataset_iterable)))%nat.
Proof. rewrite process_dataset_items. apply process_items_prefix. Qed.

(** [X6] When every entry of a batch has its id in the mapping and a
    positive sampling rate, [process_entry] returns, and the
    accumulated list is extended by the records of the entries that
    [compute_metrics] keeps, in the order of the entries. *)
Theorem batch_appends_kept_records (es : list Entry)
    (id_dict : gmap string (list float)) (metrics_results : list Metrics)
    (max_duration : Z) :
  Forall (λ entry, is_Some (id_dict !! id entry) ∧ 0 < sampling_rate (audio entry)) es →
  process_entry (Batch es) id_dict metrics_results max_duration
  = Ok (metrics_results ++ omap (kept_record id_dict max_duration) es).
Proof.
  simpl. intros Hes. revert metrics_results.
  induction Hes as [|e es [[resynth Hid] Hrate] _ IH]; intros rs; simpl.
  - by rewrite app_nil_r.
  - unfold kept_record at 1, Benchmarking.kept_record.
    rewrite (compute_metrics_present _ _ _ _ _ Hid Hrate). simpl.
    destruct (exceeds _ _); simpl; rewrite IH; [done|]. by rewrite <- app_assoc.
Qed.

(** [X7] The exception of a batch is that of its first failing entry:
    when the entries before it all have their id in the mapping and a
    positive sampling rate, an entry with a missing id ends the batch on
    the key-lookup error for that id, whatever comes after. *)
Theorem batch_raises_first_missing_id (before after : list Entry) (entry : Entry)
    (id_dict : gmap string (list float)) (metrics_results : list Metrics)
    (max_duration : Z) :
  Forall (λ e, is_Some (id_dict !! id e) ∧ 0 < sampling_rate (audio e)) before →
  id_dict !! id entry = None →
  process_entry (Batch (before ++ entry :: after)) id_dict metrics_results max_duration
  = Raise (KeyError (id entry)).
Proof. intros Hbefore Hmissing. simpl. by apply process_items_first_missing. Qed.

(** ** The duration threshold *)

Lemma exceeds_antitone d max_duration max_duration' :
  max_duration ≤ max_duration' →
  exceeds d max_duration = false → exceeds d max_duration' = false.
Proof.
  unfold exceeds. rewrite !negb_false_iff, !Qle_bool_iff. intros Hle Hd.
  eapply Qle_trans; [exact Hd|]. by rewrite <- Zle_Qle.
Qed.

(** [X8] Raising [max_duration] never loses an entry: an entry that gives
    a record under a threshold gives the same record under any larger
    threshold, and an exception of [compute_metrics] does not depend on
    the threshold. *)
Theorem larger_max_duration_keeps_records (entry : Entry)
    (id_dict : gmap string (list float)) (max_duration max_duration' : Z) :
  max_duration ≤ max_duration' →
  (∀ metrics, compute_metrics entry id_dict max_duration = Ok (Some metrics) →
              compute_metrics entry id_dict max_duration' = Ok (Some metrics))
  ∧ (∀ e, compute_metrics entry id_dict max_duration = Raise e →
          compute_metrics entry id_dict max_duration' = Raise e).
Proof.
  intros Hle.
  destruct (id_dict !! id entry) as [resynth|] eqn:Hid.
  - destruct (Z.lt_trichotomy (sampling_rate (audio entry)) 0) as [Hrate|[Hrate|Hrate]].
    + rewrite !(compute_metrics_negative_rate _ _ _ _ _ Hid Hrate). by split.
    + rewrite !(compute_metrics_zero_rate _ _ _ _ _ Hid Hrate). by split.
    + rewrite !(compute_metrics_present _ _ _ _ _ Hid Hrate). split; [|done].
      intros metrics.
      destruct (exceeds _ max_duration) eqn:Hkept; [done|].
      by rewrite (exceeds_antitone _ _ _ Hle Hkept).
  - rewrite !(compute_metrics_missing _ _ _ _ Hid). by split.
Qed.

End Entries.

(** ** The run *)

Section Runs.

Variable get_metrics : AudioSignal → AudioSignal → Metrics.

Local Abbreviation evaluate_model := (evaluate_model get_metrics).
Local Abbreviation evaluate_models := (evaluate_models get_metrics).
Local Abbreviation evaluate_dataset := (evaluate_dataset get_metrics).

Lemma getitem_missing c key : key ∉ keys c → getitem c key = Raise (KeyError key).
Proof.
  intros Hkey. destruct (getitem c key) as [split|e] eqn:Hget.
  - by apply getitem_Ok_elem in Hget.
  - by apply getitem_Raise in Hget as [-> _].
Qed.

Lemma evaluate_models_trace c mode batch_size specific_models max_duration
    models result_data result_data' :
  outcome (evaluate_models c mode batch_size specific_models max_duration models result_data)
  = Ok result_data' →
  evaluated (evaluate_models c mode batch_size specific_models max_duration models result_data)
  = selected specific_models models.
Proof.
  unfold selected. revert result_data.
  induction models as [|x models IH]; intros rd; simpl; [done|].
  destruct (skipped specific_models x) eqn:Hx.
  - rewrite filter_cons_False by (by rewrite Hx). apply IH.
  - rewrite filter_cons_True by done.
    destruct (evaluate_model c mode batch_size max_duration x); simpl; [|done].
    intros Hrest. f_equal. by apply (IH _ Hrest).
Qed.

(** Where the loop stops when the body raises. *)
Lemma evaluate_models_stops c mode batch_size specific_models max_duration
    models result_data e :
  outcome (evaluate_models c mode batch_size specific_models max_duration models result_data)
  = Raise e →
  ∃ before m after,
    selected specific_models models = before ++ m :: after
    ∧ evaluated (evaluate_models c mode batch_size specific_models max_duration
                                 models result_data) = before ++ [m]
    ∧ evaluate_model c mode batch_size max_duration m = Raise e
    ∧ Forall (λ x, ∃ r, evaluate_model c mode batch_size max_duration x = Ok r) before.
Proof.
  unfold selected. revert result_data.
  induction models as [|x models IH]; intros rd; simpl; [done|].
  destruct (skipped specific_models x) eqn:Hx.
  - rewrite filter_cons_False by (by rewrite Hx). apply IH.
  - rewrite filter_cons_True by done.
    destruct (evaluate_model c mode batch_size max_duration x) as [r|e'] eqn:Hbody; simpl.
    + intros (before & m & after & -> & -> & Hm & Hbefore)%IH.
      exists (x :: before), m, after. split_and!; [done..|].
      constructor; [by exists r|done].
    + intros [= <-]. eexists [], x, _. split_and!; [done..|constructor].
Qed.

Lemma evaluate_models_only c mode batch_size max_duration models result_data m r :
  evaluate_model c mode batch_size max_duration m = Ok r →
  outcome (evaluate_models c mode batch_size (Some [m]) max_duration models result_data)
  = Ok (if decide (m ∈ models) then <[m := r]> result_data else result_data).
Proof.
  intros Hbody. revert result_data.
  induction models as [|x models IH]; intros rd; simpl; [done|].
  destruct (decide (x = m)) as [->|Hne].
  - rewrite bool_decide_eq_true_2 by left. simpl. rewrite Hbody. simpl.
    assert (Hhead : m ∈ m :: models) by left.
    rewrite IH, (decide_True _ _ Hhead).
    case_decide; [by rewrite insert_insert_eq|done].
  - rewrite bool_decide_eq_false_2; simpl.
    + rewrite IH. destruct (decide (m ∈ models)) as [Hin|Hin].
      * assert (Htail : m ∈ x :: models) by by right.
        by rewrite (decide_True _ _ Htail).
      * assert (Htail : m ∉ x :: models) by by intros [->|?]%elem_of_cons.
        by rewrite (decide_False _ _ Htail).
    + by intros ->%list_elem_of_singleton.
Qed.

Lemma evaluate_models_ext_dataset c c' mode batch_size specific_models max_duration
    models result_data :
  (∀ m, m ∈ models → skipped specific_models m = false →
        evaluate_model c mode batch_size max_duration m
        = evaluate_model c' mode batch_size max_duration m) →
  evaluate_models c mode batch_size specific_models max_duration models result_data
  = evaluate_models c' mode batch_size specific_models max_duration models result_data.
Proof.
  revert result_data. induction models as [|x models IH]; intros rd Hsame; simpl; [done|].
  assert (Hrest : ∀ rd',
    evaluate_models c mode batch_size specific_models max_duration models rd'
    = evaluate_models c' mode batch_size specific_models max_duration models rd').
  { intros rd'. apply IH. intros m ?. apply Hsame. by right. }
  destruct (skipped specific_models x) eqn:Hx; [apply Hrest|].
  rewrite <- (Hsame x) by (done || by left).
  destruct (evaluate_model c mode batch_size max_duration x); [|done]. by rewrite Hrest.
Qed.

Lemma filter_without_original (ks : list string) :
  "original"%string ∉ ks → filter (λ key, key ≠ "original"%string) ks = ks.
Proof.
  induction ks as [|k ks IH]; [done|]. intros [? ?]%not_elem_of_cons.
  rewrite filter_cons_True by done. f_equal. by apply IH.
Qed.

(** When the body raises the same exception for every model, the loop
    stops at the first model that passes the filter. *)
Lemma evaluate_models_all_raise c mode batch_size specific_models max_duration
    models result_data e :
  (∀ m, m ∈ models → evaluate_model c mode batch_size max_duration m = Raise e) →
  evaluate_models c mode batch_size specific_models max_duration models result_data
  = match selected specific_models models with
    | first :: _ => mkRun [first] (Raise e)
    | [] => mkRun [] (Ok result_data)
    end.
Proof.
  unfold selected. induction models as [|k ks IH]; intros Hbody; simpl; [done|].
  destruct (skipped specific_models k) eqn:Hk.
  - rewrite filter_cons_False by (by rewrite Hk).
    apply IH. intros m ?. apply Hbody. by right.
  - rewrite filter_cons_True by done. by rewrite Hbody by left.
Qed.

Section Loaded.

Variable load_dataset : string → bool → result DatasetDict.
Variables (dataset_name mode : string) (batch_size : Z).
Variables (specific_models : option (list string)) (max_duration : Z).
Variable c : DatasetDict.
Hypothesis Hload : load_dataset dataset_name (is_streaming mode) = Ok c.

Local Abbreviation run :=
  (evaluate_dataset load_dataset dataset_name mode batch_size specific_models max_duration).
Local Abbreviation candidates := (filter (λ key, key ≠ "original"%string) (keys c)).

(** [X9] A dataset without an ["original"] split: the first model that
    passes the filter raises the key-lookup error for ["original"], after
    its id-to-array mapping was built, and no other model is evaluated;
    when the filter leaves no model, the run completes on the empty
    mapping. *)
Theorem missing_original_split :
  "original"%string ∉ keys c →
  match selected specific_models (keys c) with
  | first :: _ => run = mkRun [first] (Raise (KeyError "original"))
  | [] => run = mkRun [] (Ok ∅)
  end.
Proof using Hload.
  intros Horiginal.
  unfold evaluate_dataset, Benchmarking.evaluate_dataset.
  rewrite Hload, (filter_without_original _ Horiginal).
  rewrite (evaluate_models_all_raise c mode batch_size specific_models max_duration
             (keys c) ∅ (KeyError "original")).
  - by destruct (selected specific_models (keys c)).
  - intros m [split Hsplit]%getitem_Ok.
    by rewrite evaluate_model_items, Hsplit, (getitem_missing _ _ Horiginal).
Qed.

(** [X10] When the run completes, the models evaluated are the splits of
    the dataset other than ["original"] that pass the filter, in the order
    of the dataset, and the keys of the result are exactly these models:
    none is missing. *)
Theorem result_keys_are_the_selected_models (result_data : gmap string Metrics) :
  outcome run = Ok result_data →
  evaluated run = selected specific_models candidates
  ∧ ∀ k, is_Some (result_data !! k) ↔ k ∈ selected specific_models candidates.
Proof using Hload.
  unfold evaluate_dataset, Benchmarking.evaluate_dataset. rewrite Hload.
  intros Hrun. split; [by eapply evaluate_models_trace|].
  intros k. unfold selected. rewrite list_elem_of_filter.
  destruct (evaluate_models_Ok _ _ _ _ _ _ _ _ _ Hrun k) as [Hin Hout]. split.
  - intros Hk. destruct (skipped specific_models k) eqn:Hskip.
    + rewrite Hout, lookup_empty in Hk by by right. by destruct Hk.
    + split; [done|]. destruct (decide (k ∈ candidates)) as [|Hnot]; [done|].
      rewrite Hout, lookup_empty in Hk by by left. by destruct Hk.
  - intros [Hskip Hk]. destruct (Hin Hk Hskip) as (r & _ & ->). by eexists.
Qed.

(** [X11] The means of a model do not depend on the other models: when a
    run completes with a result for a model, the run restricted to that
    model by [--models] completes too, and its result holds this model
    only, with the same means. *)
Theorem single_model_run_agrees (result_data : gmap string Metrics)
    (model : string) (model_result : Metrics) :
  outcome run = Ok result_data →
  result_data !! model = Some model_result →
  outcome (evaluate_dataset load_dataset dataset_name mode batch_size
                            (Some [model]) max_duration)
  = Ok {[ model := model_result ]}.
Proof using Hload.
  unfold evaluate_dataset, Benchmarking.evaluate_dataset. rewrite Hload.
  intros Hrun Hmodel.
  destruct (evaluate_models_Ok _ _ _ _ _ _ _ _ _ Hrun model) as [Hin Hout].
  assert (Hselected : model ∈ candidates ∧ skipped specific_models model = false).
  { destruct (skipped specific_models model) eqn:Hskip.
    - rewrite Hout, lookup_empty in Hmodel by by right. done.
    - split; [|done]. destruct (decide (model ∈ candidates)) as [|Hnot]; [done|].
      rewrite Hout, lookup_empty in Hmodel by by left. done. }
  destruct Hselected as [Hcandidate Hskip].
  destruct (Hin Hcandidate Hskip) as (r & Hbody & Hr).
  rewrite Hmodel in Hr. injection Hr as <-.
  rewrite (evaluate_models_only _ _ _ _ _ _ _ _ Hbody).
  by rewrite decide_True by done.
Qed.

(** [X12] When the run ends on an exception, it is the exception of the
    first model, among those that pass the filter, whose evaluation
    raises: the models before it were evaluated in full and their results
    are lost, the models after it are not evaluated. *)
Theorem run_stops_at_first_failing_model (e : exn) :
  outcome run = Raise e →
  ∃ before model after,
    selected specific_models candidates = before ++ model :: after
    ∧ evaluated run = before ++ [model]
    ∧ evaluate_model c mode batch_size max_duration model = Raise e
    ∧ Forall (λ m, ∃ r, evaluate_model c mode batch_size max_duration m = Ok r) before.
Proof using Hload.
  unfold evaluate_dataset, Benchmarking.evaluate_dataset. rewrite Hload.
  apply evaluate_models_stops.
Qed.

End Loaded.

(** [X13] The batch size has no effect on a run, in any mode: same models
    evaluated, same means or same exception. *)
Theorem batch_size_is_irrelevant (load_dataset : string → bool → result DatasetDict)
    (dataset_name mode : string) (batch_size batch_size' : Z)
    (specific_models : option (list string)) (max_duration : Z) :
  evaluate_dataset load_dataset dataset_name mode batch_size specific_models max_duration
  = evaluate_dataset load_dataset dataset_name mode batch_size' specific_models max_duration.
Proof.
  unfold evaluate_dataset, Benchmarking.evaluate_dataset.
  destruct (load_dataset dataset_name (is_streaming mode)) as [c|e]; [|done].
  apply evaluate_models_ext; [done|]. intros m _. by rewrite !evaluate_model_items.
Qed.

(** [X14] A run does not read the splits of the models that the filter
    leaves out: two datasets with the same split names, the same
    ["original"] split and the same splits for the models that pass the
    filter give the same run. *)
Theorem skipped_splits_are_not_read (load_dataset load_dataset' : string → bool → result DatasetDict)
    (c c' : DatasetDict) (dataset_name mode : string) (batch_size : Z)
    (specific_models : option (list string)) (max_duration : Z) :
  load_dataset dataset_name (is_streaming mode) = Ok c →
  load_dataset' dataset_name (is_streaming mode) = Ok c' →
  keys c = keys c' →
  getitem c "original"%string = getitem c' "original"%string →
  (∀ m, skipped specific_models m = false → getitem c m = getitem c' m) →
  evaluate_dataset load_dataset dataset_name mode batch_size specific_models max_duration
  = evaluate_dataset load_dataset' dataset_name mode batch_size specific_models max_duration.
Proof.
  intros Hc Hc' Hkeys Horiginal Hsplits.
  unfold evaluate_dataset, Benchmarking.evaluate_dataset. rewrite Hc, Hc', Hkeys.
  apply evaluate_models_ext_dataset. intros m _ Hskip.
  by rewrite !evaluate_model_items, (Hsplits m Hskip), Horiginal.
Qed.

End Runs.

(** ** Aggregation *)

Lemma values_of_nonempty (metrics_results : list Metrics) (k : string) :
  values_of k metrics_results ≠ []
  ↔ ∃ metrics, metrics ∈ metrics_results ∧ is_Some (metrics !! k).
Proof.
  unfold values_of. induction metrics_results as [|r rs IH]; simpl.
  - split; [done|]. by intros (? & ?%elem_of_nil & _).
  - destruct (r !! k) as [v|] eqn:Hr.
    + split; [|done]. intros _. exists r. split; [by left|by eexists].
    + rewrite IH. split.
      * intros (m & ? & ?). exists m. split; [by right|done].
      * intros (m & [->|?]%elem_of_cons & Hm); [|by exists m].
        rewrite Hr in Hm. by destruct Hm.
Qed.

(** [X15] A metric is a key of a model's result exactly when a record
    holds it, and its value is [np.nanmean] of the values of the records
    that hold it, in the order of the records. That list is never empty:
    the [np.nan] branch of the reduction is not taken. *)
Theorem means_are_taken_over_collected_values (metrics_results : list Metrics)
    (k : string) :
  (is_Some (reduce (aggregate metrics_results) !! k)
   ↔ ∃ metrics, metrics ∈ metrics_results ∧ is_Some (metrics !! k))
  ∧ match reduce (aggregate metrics_results) !! k with
    | Some mean => values_of k metrics_results ≠ []
                   ∧ mean = np_nanmean (values_of k metrics_results)
    | None => values_of k metrics_results = []
    end.
Proof.
  rewrite <- values_of_nonempty.
  unfold reduce. rewrite lookup_fmap, aggregate_lookup.
  destruct (values_of k metrics_results) as [|v vs]; simpl.
  - split; [|done]. split; [by intros []|done].
  - split; [|done]. split; [done|by eexists].
Qed.

(** ** The output file *)

Lemma list_ascii_of_string_append (s1 s2 : string) :
  String.list_ascii_of_string (String.append s1 s2)
  = String.list_ascii_of_string s1 ++ String.list_ascii_of_string s2.
Proof. induction s1 as [|a s1 IH]; simpl; [done|by rewrite IH]. Qed.

Lemma replace_slash_chars (s : string) :
  String.list_ascii_of_string (replace_slash s)
  = (λ a, if Ascii.eqb a "/"%char then "_"%char else a) <$> String.list_ascii_of_string s.
Proof. induction s as [|a s IH]; csimpl; [done|by rewrite IH]. Qed.

(** [X16] The name of the output file never holds a slash, whatever the
    dataset name: the file is created in the working directory. It is the
    dataset name, character for character but for the slashes, followed by
    the 24 characters of the suffix. *)
Theorem output_file_name_has_no_slash (dataset_name : string) :
  ("/"%char ∉ String.list_ascii_of_string (output_file_name dataset_name))
  ∧ String.length (output_file_name dataset_name)
    = (String.length dataset_name + 24)%nat.
Proof.
  unfold output_file_name. split.
  - rewrite list_ascii_of_string_append, replace_slash_chars, not_elem_of_app. split.
    + intros (a & Ha & _)%list_elem_of_fmap.
      destruct (Ascii.eqb a "/") eqn:Heq; [done|].
      subst a. by rewrite Ascii.eqb_refl in Heq.
    + apply (bool_decide_unpack _). by vm_compute.
  - induction dataset_name as [|a s IH]; simpl; [done|by rewrite IH].
Qed.

Lemma replace_slash_idemp (s : string) : replace_slash (replace_slash s) = replace_slash s.
Proof.
  induction s as [|a s IH]; simpl; [done|]. rewrite IH. f_equal.
  destruct (Ascii.eqb a "/") eqn:Heq; [done|]. by rewrite Heq.
Qed.

(** [X17] Two dataset names share their output file exactly when they are
    the same once their slashes are replaced by underscores; so a name and
    the same name with underscores for slashes write to the same file,
    and the later run overwrites the earlier one. *)
Theorem output_files_collide (dataset_name dataset_name' : string) :
  (output_file_name dataset_name = output_file_name dataset_name'
   ↔ replace_slash dataset_name = replace_slash dataset_name')
  ∧ output_file_name (replace_slash dataset_name) = output_file_name dataset_name.
Proof.
  unfold output_file_name. split; [|by rewrite replace_slash_idemp].
  split; [|by intros ->].
  intros Hsame%(f_equal String.list_ascii_of_string).
  rewrite !list_ascii_of_string_append in Hsame. apply app_inv_tail in Hsame.
  apply (f_equal String.string_of_list_ascii) in Hsame.
  by rewrite !String.string_of_list_ascii_of_string in Hsame.
Qed.

(** ** Examples *)

Lemma batches_are_full_but_the_last_witness :
  Z.of_nat (length (batched_dataset five_clips 2)) = 3
  ∧ Z.of_nat (length [clip "1" [1]%float; clip "2" [1; 2]%float]) = 2.
Proof.
  destruct (batches_are_full_but_the_last five_clips 2) as [Hcount Hfull]; [lia|].
  split; [exact Hcount|].
  apply (Hfull 0%nat); [simpl; lia|reflexivity].
Defined.

Lemma batch_size_out_of_range_gives_one_batch_witness :
  batched_dataset five_clips 0 = [five_clips]
  ∧ batched_dataset five_clips 6 = [five_clips].
Proof.
  split; apply batch_size_out_of_range_gives_one_batch;
    [discriminate|left; lia|discriminate|right; simpl; lia].
Defined.

Lemma metrics_results_only_grows_witness :
  [snr 1] `prefix_of` [snr 1; count_samples (mkAudioSignal [1; 2; 3; 4]%float 16000)
                                             (mkAudioSignal [1; 2; 3; 0]%float 16000)].
Proof.
  apply (metrics_results_only_grows count_samples
           [Single (clip "1" [1; 2; 3; 4]%float)]
           (build_id_dict [clip "1" [1; 2; 3]%float]) [snr 1] _ 120).
  reflexivity.
Defined.

Lemma batch_appends_kept_records_witness :
  process_entry count_samples (Batch [clip "1" [1; 2]%float; slow])
                (build_id_dict [clip "1" [1; 2]%float; slow]) [snr 1] 2
  = Ok ([snr 1]
        ++ omap (kept_record count_samples
                             (build_id_dict [clip "1" [1; 2]%float; slow]) 2)
                [clip "1" [1; 2]%float; slow]).
Proof.
  apply batch_appends_kept_records.
  repeat constructor; (by eexists) || discriminate.
Defined.

(** In that batch the clip is kept and [slow], three seconds long, is not. *)
Example kept_records_of_a_batch :
  omap (kept_record count_samples (build_id_dict [clip "1" [1; 2]%float; slow]) 2)
       [clip "1" [1; 2]%float; slow]
  = [count_samples (mkAudioSignal [1; 2]%float 16000) (mkAudioSignal [1; 2]%float 16000)].
Proof. vm_compute. reflexivity. Qed.

Lemma batch_raises_first_missing_id_witness :
  process_entry count_samples
                (Batch ([clip "1" [1; 2]%float] ++ clip "2" [3; 4]%float
                          :: [clip "3" [5]%float]))
                (build_id_dict [clip "1" [1; 2]%float]) [] 120
  = Raise (KeyError "2").
Proof.
  apply (batch_raises_first_missing_id count_samples
           [clip "1" [1; 2]%float] [clip "3" [5]%float] (clip "2" [3; 4]%float)).
  - repeat constructor; (by eexists) || discriminate.
  - reflexivity.
Defined.

Lemma larger_max_duration_keeps_records_witness :
  compute_metrics count_samples slow (build_id_dict [slow]) 5
  = Ok (Some (count_samples (mkAudioSignal [1; 2; 3]%float 1)
                            (mkAudioSignal [1; 2; 3]%float 1))).
Proof.
  destruct (larger_max_duration_keeps_records count_samples slow (build_id_dict [slow]) 3 5)
    as [Hkept _]; [lia|].
  apply Hkept. reflexivity.
Defined.

Lemma missing_original_split_witness :
  evaluate_dataset count_samples (loaded orphan) "orphan" "streaming" 100 None 120
  = mkRun ["m"%string] (Raise (KeyError "original"))
  ∧ evaluate_dataset count_samples (loaded orphan) "orphan" "streaming" 100
                     (Some ["n"%string]) 120
    = mkRun [] (Ok ∅).
Proof.
  split.
  - apply (missing_original_split count_samples (loaded orphan)
             "orphan" "streaming" 100 None 120 orphan); [reflexivity|].
    intros Hin. apply elem_of_cons in Hin as [Heq|Hin]; [discriminate|].
    by apply elem_of_nil in Hin.
  - apply (missing_original_split count_samples (loaded orphan)
             "orphan" "streaming" 100 (Some ["n"%string]) 120 orphan); [reflexivity|].
    intros Hin. apply elem_of_cons in Hin as [Heq|Hin]; [discriminate|].
    by apply elem_of_nil in Hin.
Defined.

(** The scenario with a second model: both are evaluated, in order. *)
Example scenario_two_run :
  evaluate_dataset count_samples (loaded scenario_two) "two" "batch" 100 None 120
  = mkRun ["m"%string; "n"%string]
          (Ok {[ "m"%string := {[ "samples"%string := 4%float ]};
                 "n"%string := {[ "samples"%string := 4%float ]} ]}).
Proof. vm_compute. reflexivity. Qed.

Lemma result_keys_are_the_selected_models_witness :
  evaluated (evaluate_dataset count_samples (loaded scenario_two) "two" "batch" 100 None 120)
  = selected None (filter (λ key, key ≠ "original"%string) (keys scenario_two)).
Proof.
  eapply (result_keys_are_the_selected_models count_samples (loaded scenario_two)
            "two" "batch" 100 None 120 scenario_two).
  - reflexivity.
  - rewrite scenario_two_run. reflexivity.
Defined.

Lemma single_model_run_agrees_witness :
  outcome (evaluate_dataset count_samples (loaded scenario_two) "two" "batch" 100
                            (Some ["n"%string]) 120)
  = Ok {[ "n"%string := {[ "samples"%string := 4%float ]} ]}.
Proof.
  eapply (single_model_run_agrees count_samples (loaded scenario_two)
            "two" "batch" 100 None 120 scenario_two).
  - reflexivity.
  - rewrite scenario_two_run. reflexivity.
  - reflexivity.
Defined.

(** On [hollow] the run stops at ["m"], the first model, and ["n"] is not
    evaluated. *)
Example hollow_run :
  evaluate_dataset count_samples (loaded hollow) "hollow" "streaming" 100 None 120
  = mkRun ["m"%string] (Raise (KeyError "1")).
Proof. vm_compute. reflexivity. Qed.

Lemma run_stops_at_first_failing_model_witness :
  ∃ before model after,
    selected None (filter (λ key, key ≠ "original"%string) (keys hollow))
    = before ++ model :: after
    ∧ evaluated (evaluate_dataset count_samples (loaded hollow)
                                  "hollow" "streaming" 100 None 120)
      = before ++ [model]
    ∧ evaluate_model count_samples hollow "streaming" 100 120 model
      = Raise (KeyError "1")
    ∧ Forall (λ m, ∃ r, evaluate_model count_samples hollow "streaming" 100 120 m = Ok r)
             before.
Proof.
  apply (run_stops_at_first_failing_model count_samples (loaded hollow)
           "hollow" "streaming" 100 None 120 hollow).
  - reflexivity.
  - rewrite hollow_run. reflexivity.
Defined.

(** With [--models m], the split of ["n"] may be anything. *)
Lemma skipped_splits_are_not_read_witness :
  evaluate_dataset count_samples (loaded scenario_two) "two" "streaming" 100
                   (Some ["m"%string]) 120
  = evaluate_dataset count_samples (loaded scenario_bis) "two" "streaming" 100
                     (Some ["m"%string]) 120.
Proof.
  apply (skipped_splits_are_not_read count_samples (loaded scenario_two)
           (loaded scenario_bis) scenario_two scenario_bis).
  - reflexivity.
  - reflexivity.
  - reflexivity.
  - reflexivity.
  - intros m Hm. unfold skipped in Hm.
    apply negb_false_iff, bool_decide_eq_true_1, list_elem_of_singleton in Hm.
    by subst m.
Defined.

End Benchmarking.
